(* ===== verification/_CoqProject ===== *)
-Q . S2P
Prelude.v
IO.v
Poll.v
LogFormat.v
Transport.v
SimEC.v
TimedEC.v
TimedTransport.v
Stalls.v
TimedSafety.v
Interleave.v
