(* ===== verification/Prelude.v ===== *)
(** * Verification of the TPFanControl embedded-controller byte transport

    The program is [src/TPFanControl/portio.cpp] of TPFanControl: two
    methods of class [FANCONTROL], [ReadByteFromEC] and [WriteByteToEC],
    that read and write one register of the ThinkPad embedded controller
    (EC) through two I/O ports, the data port [EC_DATAPORT = 0x1600] and
    the command/status port [EC_CTRLPORT = 0x1604].  Both methods run the
    same handshake: wait until the status byte shows both buffers empty
    (up to 1000 ms), write a command byte, wait again (100 ms), write the
    register offset to the data port, then wait for the last condition
    (OBF set for a read, both buffers empty for a write).  The handshake
    is retried at most 5 times, but only a time-out of the last wait is
    retried: a time-out of the first two waits returns 0 at once.  A
    successful read then reads the data port into [*pdata] and, when the
    global [verbosity] is positive, appends a line to the global [logbuf]
    with [sprintf]; a successful write writes the new value to the data
    port.  [ReadPort] / [WritePort] (TVicPort driver) and [::Sleep]
    (Win32) are the environment.

    ** Files, in dependency order, and what they model

    - [Prelude] (this file): the [ec_scope] notations ([&&&], [|||]),
      the C conversions the code relies on ([uchar]: to [UCHAR];
      [schar]: [(char)] on a two's-complement target; [uint32]: the
      unsigned view [printf] takes of an [int]) with range and bit-mask
      lemmas, the hint databases [ec] and [ec_rw], the tactics
      [c_ranges] and [zcase], and [uint32_schar] (a [char] promoted to
      [int] and printed unsigned is sign-extended from [0x80] on).
    - [IO]: a program is a finite tree ([io]) of the three primitive
      events; [ReadPort], [WritePort] (with the [UCHAR] conversion of its
      argument) and [Sleep] build them.  [bind] and the notation
      [x <- m ;; k]; [io_eq] (written [≅]), equality of trees up to the
      byte a read answers, an [Equivalence] with [Proper] instances for
      [bind] and [paths]; [paths Q m P], the program logic: every path
      whose reads answer bytes allowed by [Q] ends with a trace and a
      result satisfying [P] (rules [paths_bind], [paths_mono]);
      [loop], C loops as a fuelled fixpoint, with [loop_fuel_adequate],
      [loop_unfold] and [loop_exit]; the class [PortDevice] (the
      interface a port driver offers), [run] and [paths_run] (every run
      of a device is one of the paths), and [exec] (final state and
      result of a run) with its rules [exec_bind], [exec_io_eq].
    - [Poll]: the [#define]s and local constants of portio.cpp, the status
      sample [status_sample] of line 73, the conditions [buffers_clear]
      and [obf_set], and the wait loop [for (iTime = 0; iTime < iTimeout;
      iTime += iTick)] as [poll_body] / [wait_loop] / [wait_ec].  Proved:
      the casts keep the status bits ([status_sample_land]), the loop is
      the reference poll [poll_ref] with [ceil(timeout / iTick)] samples
      ([wait_ec_poll_ref]), every path of a poll ([wait_ec_paths],
      [poll_ref_paths]), and the loop ends by [break] or its condition
      ([wait_loop_exit]).
    - [LogFormat]: the globals [verbosity] and [logbuf], the conversions
      [%x] / [%02x] ([fmt_x]), the line of line 118 ([readec_line]) and
      its append ([log_readec]).  Proved: the hexadecimal digits parse
      back ([fmt_x_parse]), so every logged line reads back into its
      two fields ([readec_line_roundtrip]), and [logbuf] overflows
      ([logbuf_overflow]).
    - [Transport]: [setup_attempt] (one iteration of the [while] loop,
      lines 72-112 / 139-176, with [iOK], the early [return 0] and the
      [numSetupTries = 1] exit), [setup_loop], [ReadByteFromEC] and
      [WriteByteToEC].  The reference machine [retry_ref] repeats
      [attempt_ref] while it times out; [ReadByteFromEC_ref] and
      [WriteByteToEC_ref] prove the source's control flow equal to it.
      On that basis: the complete description of every path of each
      method ([ReadByteFromEC_paths], [WriteByteToEC_paths]), the idle
      time-out ([*_idle_timeout]), the 5.9 s bound on sleeping
      ([*_latency]), what a write puts on the ports
      ([WriteByteToEC_writes]), the log ([ReadByteFromEC_log]) and its
      sign-extended data field ([ReadByteFromEC_log_data]), the
      termination of the retry loop ([setup_loop_exit]) and the types
      of the results ([transport_result_types]: 0 or 1, [*pdata] a
      [char]).
    - [SimEC]: a cooperative EC (stdpp [gmap] register file, OBF and the
      command phase) as a [PortDevice], and [scripted], a wrapper that
      answers status reads from a list first.  Proved: the abstract
      specification (a memory of 256 byte registers, [mem_read] /
      [mem_write]) is refined by the transport for any sequence of calls
      ([transport_refines_mem]); the write-then-read round trip; offsets
      alias modulo 256, with only the log line telling them apart
      ([read_offset_aliasing]).  The specification's scenarios are kept
      as lemmas run by [vm_compute] (the read of [0x2F], the write
      stalled [k] times, the command-wait time-out, a late answer, the
      worst case of [ReadByteFromEC_latency] reached); the general
      statements are the theorems of [TimedTransport] and [Stalls].
    - [TimedEC]: an EC whose status follows a clock that only
      [::Sleep] advances: every byte written keeps IBF set for
      [lat_ibf] ms, the answer of a READ shows OBF [lat_obf] ms after
      the index.  The poll stops at the first sample at or after a
      deadline ([tec_poll_hit], [tec_poll_miss]).
    - [TimedTransport]: the two methods on that EC.  Proved, for every
      delay: on a timely EC (both latencies at most 90 ms) a read and a
      write succeed in one handshake, in a number of ticks computed
      exactly ([timed_read_ok], [timed_write_ok]); the states a
      serialized caller reaches by reads, writes and pauses are ready
      and every call there succeeds ([serial_reach_ready], by induction
      on the inductive [serial_reach]); any sequence of calls refines
      the abstract memory ([timed_refines_mem]); an answer later than
      90 ms makes every read fail ([timed_read_late]); a command taken
      later than 90 ms makes every call fail within 1.1 s, without
      retry ([timed_slow_command]); an answer between 90 and 100 ms
      leaves a byte in the output buffer that nothing drains, after
      which every call fails ([late_answer_wedges]).
    - [Stalls]: [staged], a wrapper of the clocked EC that takes each
      byte written with the next latency of a plan, and [no_writes]
      programs (the polls) that run through it as on the EC.  Proved:
      section 8 of the specification for every delay ([write_stalls]):
      a write whose index is taken late on [k] handshakes succeeds on
      handshake [k + 1] when [k < 5] and fails, storing nothing, when
      [k = 5]; the commands and values are taken within 90 ms, the late
      indexes after 90 ms but within 1090 ms, before the last sample of
      the retry's idle wait.
    - [TimedSafety]: what holds on the clocked EC for every latency and
      from every state (a stale output byte, a write waiting for its
      value).  The polls keep the register file, the command phase and
      the output byte ([exec_tec_no_writes]); a handshake past its
      command wait has put the register in the output buffer (READ) or
      left the EC waiting for the value at the index (WRITE); retries
      keep an invariant ([exec_retry_inv]).  Proved: a read never
      changes a register and, when it returns 1, returns the register's
      [char] ([timed_read_sound]); a write that returns 1 stored the
      value at the index only, one that returns 0 changed nothing
      ([timed_write_sound]).  With [timed_read_ok] and [timed_write_ok]
      this is total correctness on a timely EC.
    - [Interleave]: two callers sharing one EC without a lock (the code
      takes none; the specification asks callers to serialize): a
      schedule picks whose next port event happens ([interleave]).
      Proved: [interleave_serialized] (a schedule that runs one call to
      its end first is sequential execution), and two corrupting
      schedules on the cooperative EC, run by [vm_compute]
      ([concurrent_reads_mix_registers], [concurrent_write_lost]).  The
      append of line 118 as its two C
      steps, [strlen] then [sprintf] at that position ([strlen],
      [sprintf_at], equal to [log_readec] by [log_readec_steps]); two
      callers appending along a schedule ([log_interleave]) lose a line
      when both take [strlen] first ([concurrent_log_lost]).

    ** Bounds and fuel

    The wait loop's fuel is its measure [Z.to_nat (iTimeout - iTime)],
    the retry loop's is [Z.to_nat numSetupTries = 5]; [loop_exit] shows
    that each loop leaves by [break]/[return] or because its C condition
    is false, so the fuel never decides.  The waits sample the status
    100 times (idle) and 10 times (command, last), one [iTick = 10] ms
    sleep after each failed sample: the samples are taken 0, 10, ...,
    90 ms into a 100 ms wait, so the clocked EC is [timely] when both
    latencies are at most 90 ms and [t_ready] when IBF clears within
    990 ms and no byte waits in the output buffer; [ticks d =
    ceil(d / 10)] is the number of failed samples before a deadline
    [d] ms away.

    ** Findings

    [logbuf] overflows after 293 logged reads; bytes of [0x80] and more
    are logged as [ffffffXX]; a command-wait time-out is not retried
    (against sections 7 and 8 of the specification); a read whose
    answer comes after the 100 ms window fails on every retry because
    OBF is never drained; offsets alias modulo 256; a call may sleep
    5.9 s; a wait's last sample is taken 90 ms into its 100 ms budget
    and its last 10 ms sleep is never followed by a sample, so an EC
    answering at 95 ms fails every read, and its answer then stays in
    the output buffer, where the idle wait of every later call sees it
    until the call gives up (the transport never reads a stale byte
    away); unserialized log appends lose lines.

    ** Not modelled, and the plan for later

    The rest of TPFanControl is not in the sources; [lasterrorstring] is
    unused.  [EC_STAT_CMD] and [EC_CTRLPORT_QUERY] are defined but
    never used by the code.  The EC itself is hardware: [SimEC] and
    [TimedEC] are models of it, not of code.  The retry of section 8 is
    stated for writes only: a read whose answer is late leaves the byte
    in the output buffer, and [late_answer_wedges] shows that then no
    retry succeeds.  All code of portio.cpp is modelled; the share of
    its lines the map leaves out is comments, blank lines and the
    license header.  Concurrent log appends are shown at one schedule
    ([concurrent_log_lost]); the overflow of [logbuf] is stated for
    appends made one after the other ([logbuf_overflow]), not for
    interleaved ones.
    The lock the specification asks of callers belongs to them, outside
    portio.cpp, and is not modelled: calls under one lock are calls in
    sequence, which [transport_refines_mem] and [timed_refines_mem]
    cover; [Interleave] models callers without it. *)

From Stdlib Require Import ZArith Lia Bool List String.
Import ListNotations.
Open Scope Z_scope.

(** ** Notations of the development *)

Declare Scope ec_scope.
Delimit Scope ec_scope with ec.
Infix "&&&" := Z.land (at level 40, left associativity) : ec_scope.
Infix "|||" := Z.lor (at level 50, left associativity) : ec_scope.
Open Scope ec_scope.

Create HintDb ec.
Create Rewrite HintDb ec_rw.

(** ** C integer conversions *)

(** Conversion of an [int] to [UCHAR] / [BYTE] (an 8-bit unsigned value):
    reduction modulo 256. *)
Definition uchar (z : Z) : Z := z mod 256.

(** Conversion to [char], which is signed with the compilers the project
    targets: the 8-bit pattern read as a two's-complement value. *)
Definition schar (z : Z) : Z :=
  let u := uchar z in if u <? 128 then u else u - 256.

(** The unsigned [int] a [%x] conversion prints: reduction modulo 2^32. *)
Definition uint32 (z : Z) : Z := z mod 2 ^ 32.

Lemma uchar_range z : 0 <= uchar z < 256.
Proof. unfold uchar. apply Z.mod_pos_bound. lia. Qed.

Lemma uchar_small z : 0 <= z < 256 -> uchar z = z.
Proof. intros H. unfold uchar. apply Z.mod_small. exact H. Qed.

Lemma schar_range z : -128 <= schar z < 128.
Proof.
  unfold schar. pose proof (uchar_range z).
  destruct (Z.ltb_spec (uchar z) 128); lia.
Qed.

Lemma uchar_schar z : uchar (schar z) = uchar z.
Proof.
  unfold schar. pose proof (uchar_range z).
  destruct (Z.ltb_spec (uchar z) 128).
  - apply uchar_small. lia.
  - unfold uchar at 1. replace (uchar z - 256) with (uchar z + (-1) * 256) by lia.
    rewrite Z.mod_add by lia. unfold uchar. apply Zmod_mod.
Qed.

Lemma uchar_add_256 z k : uchar (z + 256 * k) = uchar z.
Proof. unfold uchar. rewrite Z.mul_comm. apply Z.mod_add. lia. Qed.

Lemma uchar_uchar z : uchar (uchar z) = uchar z.
Proof. apply uchar_small, uchar_range. Qed.

Lemma schar_uchar z : schar (uchar z) = schar z.
Proof. unfold schar. rewrite (uchar_small (uchar z)) by apply uchar_range. reflexivity. Qed.

Lemma schar_small z : -128 <= z < 128 -> schar z = z.
Proof.
  intros H. unfold schar, uchar.
  destruct (Z.leb_spec 0 z).
  - rewrite Z.mod_small by lia. destruct (Z.ltb_spec z 128); lia.
  - replace (z mod 256) with (z + 256).
    + destruct (Z.ltb_spec (z + 256) 128); lia.
    + apply Z.mod_unique with (q := -1); lia.
Qed.

(** Two values with the same low byte have the same [schar]. *)
Lemma schar_of_uchar_eq x y : uchar x = uchar y -> schar x = schar y.
Proof. intros H. unfold schar. rewrite H. reflexivity. Qed.

Lemma uint32_range z : 0 <= uint32 z < 2 ^ 32.
Proof. unfold uint32. apply Z.mod_pos_bound. lia. Qed.

Lemma uint32_small z : 0 <= z < 2 ^ 32 -> uint32 z = z.
Proof. intros H. unfold uint32. apply Z.mod_small. exact H. Qed.

(** A negative [char] promoted to [int] and printed unsigned. *)
Lemma uint32_neg z : - 2 ^ 32 <= z < 0 -> uint32 z = 2 ^ 32 + z.
Proof.
  intros H. unfold uint32.
  symmetry. apply Z.mod_unique with (q := -1); lia.
Qed.

(** A [char] promoted to [int] and printed unsigned: its byte below
    [0x80], the byte sign-extended to [0xffffffXX] from [0x80] on. *)
Lemma uint32_schar z :
  uint32 (schar z) = if uchar z <? 128 then uchar z else 0xffffff00 + uchar z.
Proof.
  unfold schar. pose proof (uchar_range z).
  destruct (Z.ltb_spec (uchar z) 128); [apply uint32_small | rewrite uint32_neg]; lia.
Qed.

(** ** Bit masks on bytes *)

Lemma land_ff z : z &&& 255 = uchar z.
Proof. change 255 with (Z.ones 8). rewrite Z.land_ones by lia. reflexivity. Qed.

Lemma land_byte_mask m : 0 <= m < 256 -> m &&& 255 = m.
Proof. intros H. rewrite land_ff. apply uchar_small, H. Qed.

(** A mask that fits in a byte sees only the low byte of its argument. *)
Lemma land_low_byte z m : 0 <= m < 256 -> z &&& m = uchar z &&& m.
Proof.
  intros H. rewrite <- (land_byte_mask m H) at 1.
  rewrite (Z.land_comm m 255), Z.land_assoc, land_ff. reflexivity.
Qed.

#[export] Hint Resolve uchar_range schar_range uint32_range : ec.
#[export] Hint Rewrite uchar_uchar uchar_schar schar_uchar land_ff : ec_rw.

(** ** Tactics *)

(** Bring the ranges of every C conversion occurring in the goal into the
    context, so that [lia] can use them. *)
Ltac c_ranges :=
  repeat match goal with
  | |- context [uchar ?z] =>
      lazymatch goal with
      | _ : 0 <= uchar z < 256 |- _ => fail
      | _ => pose proof (uchar_range z)
      end
  | |- context [schar ?z] =>
      lazymatch goal with
      | _ : -128 <= schar z < 128 |- _ => fail
      | _ => pose proof (schar_range z)
      end
  end.

(** Case analysis on the boolean comparisons of [Z] left in the goal. *)
Ltac zcase :=
  repeat match goal with
  | |- context [Z.ltb ?a ?b] => destruct (Z.ltb_spec a b)
  | |- context [Z.leb ?a ?b] => destruct (Z.leb_spec a b)
  | |- context [Z.eqb ?a ?b] => destruct (Z.eqb_spec a b)
  | |- context [Z.gtb ?a ?b] => rewrite (Z.gtb_ltb a b); destruct (Z.ltb_spec b a)
  end.

(** ** Generic lemmas on lists *)

(** Number of elements of a list satisfying a boolean test. *)
Fixpoint count_if {A} (f : A -> bool) (l : list A) : nat :=
  match l with
  | [] => O
  | x :: l' => (if f x then 1 else 0) + count_if f l'
  end%nat.

Lemma count_if_app {A} (f : A -> bool) l1 l2 :
  count_if f (l1 ++ l2) = (count_if f l1 + count_if f l2)%nat.
Proof. induction l1 as [|x l1 IH]; simpl; [reflexivity | rewrite IH; lia]. Qed.

#[export] Hint Rewrite @count_if_app : ec_rw.

