(* ===== verification/IO.v ===== *)
(** * Programs over I/O ports as finite trees of port events

    The code of portio.cpp interacts with its environment through three
    primitives only: [ReadPort] and [WritePort] of the TVicPort driver and
    Win32 [::Sleep].  A program is an [io] tree whose nodes are these
    three events and whose leaves are results; the program terminates, so
    the tree is an inductive (finite) object.  This file holds:
    - the monad ([bind]) and its notation in [io_scope];
    - [io_eq], equality of trees up to the answers a port can give (one
      byte), an equivalence with [Proper] instances for [bind];
    - [paths Q m P]: every path of [m] whose read answers satisfy [Q]
      ends with a trace and a result satisfying [P];
    - [loop], the C loop with fuel, and the theorems that fuel at least
      the loop's measure is never exhausted;
    - the class [PortDevice] of port drivers, the interpreter [run], and
      the theorem that each run of a device is one of the [paths]. *)

From Stdlib Require Import ZArith Lia Bool List Morphisms RelationClasses.
From S2P Require Import Prelude.
Import ListNotations.
Open Scope Z_scope.

(** ** Events and trees *)

(** What the environment observes: a port read with the byte it
    answered, a port write with the byte written, a sleep. *)
Inductive event : Type :=
| EvRead (port v : Z)
| EvWrite (port v : Z)
| EvSleep (ms : Z).

Inductive io (A : Type) : Type :=
| Ret (a : A)
| InPort (port : Z) (k : Z -> io A)
| OutPort (port v : Z) (k : io A)
| Delay (ms : Z) (k : io A).

Arguments Ret {A} a.
Arguments InPort {A} port k.
Arguments OutPort {A} port v k.
Arguments Delay {A} ms k.

Fixpoint bind {A B} (m : io A) (f : A -> io B) : io B :=
  match m with
  | Ret a => f a
  | InPort p k => InPort p (fun v => bind (k v) f)
  | OutPort p v k => OutPort p v (bind k f)
  | Delay ms k => Delay ms (bind k f)
  end.

Declare Scope io_scope.
Delimit Scope io_scope with io.
Notation "x <- m ;; k" := (bind m (fun x => k))
  (at level 100, m at next level, k at level 200, right associativity) : io_scope.
Notation "m ;; k" := (bind m (fun _ => k))
  (at level 100, k at level 200, right associativity) : io_scope.
Open Scope io_scope.

(** ** The environment's primitives

    [UCHAR ReadPort(USHORT)], [void WritePort(USHORT, UCHAR)] (TVicPort)
    and [void Sleep(DWORD)] (Win32).  The value passed to [WritePort] is
    converted to its [UCHAR] parameter. *)

Definition ReadPort (port : Z) : io Z := InPort port Ret.
Definition WritePort (port v : Z) : io unit := OutPort port (uchar v) (Ret tt).
Definition Sleep (ms : Z) : io unit := Delay ms (Ret tt).

(** ** Equivalence of trees

    Two trees are equivalent when they perform the same events and, for
    every byte a read can answer, continue with equivalent trees.  It is
    coarser than [=], which would need functional extensionality under
    the continuations of [InPort]. *)

Inductive io_eq {A} : io A -> io A -> Prop :=
| ioeq_Ret a : io_eq (Ret a) (Ret a)
| ioeq_In p k1 k2 :
    (forall v, 0 <= v < 256 -> io_eq (k1 v) (k2 v)) -> io_eq (InPort p k1) (InPort p k2)
| ioeq_Out p v k1 k2 : io_eq k1 k2 -> io_eq (OutPort p v k1) (OutPort p v k2)
| ioeq_Delay ms k1 k2 : io_eq k1 k2 -> io_eq (Delay ms k1) (Delay ms k2).

Infix "≅" := io_eq (at level 70) : io_scope.

#[export] Hint Constructors io_eq : ec.

#[export] Instance io_eq_equiv {A} : Equivalence (@io_eq A).
Proof.
  split.
  - intros m. induction m; constructor; auto.
  - intros m1 m2 H. induction H; constructor; auto.
  - intros m1 m2 m3 H12. revert m3.
    induction H12; intros m3 H23; inversion H23; subst; constructor; auto.
Qed.

(** [bind] respects the equivalence in both arguments; the continuations
    need to agree only on the results the first tree can produce. *)
Lemma bind_cong {A B} (m1 m2 : io A) (f g : A -> io B) :
  m1 ≅ m2 -> (forall a, f a ≅ g a) -> bind m1 f ≅ bind m2 g.
Proof. intros H Hfg. induction H; simpl; [apply Hfg | constructor; auto ..]. Qed.

#[export] Instance bind_proper {A B} :
  Proper (io_eq ==> pointwise_relation A io_eq ==> io_eq) (@bind A B).
Proof. intros m1 m2 H f g Hfg. apply bind_cong; assumption. Qed.

Lemma bind_ret_r {A} (m : io A) : bind m Ret ≅ m.
Proof. induction m; simpl; constructor; auto. Qed.

Lemma bind_assoc {A B C} (m : io A) (f : A -> io B) (g : B -> io C) :
  bind (bind m f) g ≅ bind m (fun x => bind (f x) g).
Proof. induction m; simpl; try reflexivity; constructor; auto. Qed.

(** ** Paths of a program *)

(** [paths Q m P]: along every path of [m] on which each read of port
    [p] answers a byte [v] with [Q p v], the trace of events and the
    result satisfy [P]. *)
Fixpoint paths {A} (Q : Z -> Z -> Prop) (m : io A) (P : list event -> A -> Prop) : Prop :=
  match m with
  | Ret a => P [] a
  | InPort p k =>
      forall v, 0 <= v < 256 -> Q p v -> paths Q (k v) (fun tr a => P (EvRead p v :: tr) a)
  | OutPort p v k => paths Q k (fun tr a => P (EvWrite p v :: tr) a)
  | Delay ms k => paths Q k (fun tr a => P (EvSleep ms :: tr) a)
  end.

(** Any answer the port can give. *)
Definition any_answer : Z -> Z -> Prop := fun _ _ => True.

Lemma paths_mono {A} Q (m : io A) (P P' : list event -> A -> Prop) :
  (forall tr a, P tr a -> P' tr a) -> paths Q m P -> paths Q m P'.
Proof.
  revert P P'. induction m as [a|p k IH|p v k IH|ms k IH]; simpl; intros P P' HP H.
  - auto.
  - intros v Hv HQ. eapply IH; [|apply H; assumption]. simpl; auto.
  - eapply IH; [|exact H]. simpl; auto.
  - eapply IH; [|exact H]. simpl; auto.
Qed.

Lemma paths_answers {A} (Q Q' : Z -> Z -> Prop) (m : io A) P :
  (forall p v, Q' p v -> Q p v) -> paths Q m P -> paths Q' m P.
Proof.
  intros HQ. revert P. induction m as [a|p k IH|p v k IH|ms k IH]; simpl; intros P H; auto.
Qed.

Lemma paths_conj {A} Q (m : io A) P1 P2 :
  paths Q m P1 -> paths Q m P2 -> paths Q m (fun tr a => P1 tr a /\ P2 tr a).
Proof.
  revert P1 P2. induction m as [a|p k IH|p v k IH|ms k IH]; simpl; intros P1 P2 H1 H2; auto.
Qed.

(** The rule for sequencing: a postcondition of [bind m f] follows from
    one of [m] stating a postcondition of each continuation. *)
Lemma paths_bind {A B} Q (m : io A) (f : A -> io B) P :
  paths Q m (fun t1 a => paths Q (f a) (fun t2 b => P (t1 ++ t2) b)) ->
  paths Q (bind m f) P.
Proof.
  revert P. induction m as [a|p k IH|p v k IH|ms k IH]; simpl; intros P H.
  - exact H.
  - intros v Hv HQ. apply IH. exact (H v Hv HQ).
  - apply IH. exact H.
  - apply IH. exact H.
Qed.

Lemma paths_io_eq {A} Q (m1 m2 : io A) P : m1 ≅ m2 -> paths Q m1 P -> paths Q m2 P.
Proof.
  intros H. revert P. induction H; simpl; intros P HP; auto.
Qed.

#[export] Instance paths_proper {A} Q :
  Proper (io_eq ==> eq ==> iff) (@paths A Q).
Proof.
  intros m1 m2 H P P' <-. split; apply paths_io_eq; [exact H | symmetry; exact H].
Qed.

Lemma paths_true {A} Q (m : io A) : paths Q m (fun _ _ => True).
Proof. induction m; simpl; auto. Qed.

(** A property of the results only, whatever the trace. *)
Lemma paths_bind_result {A B} Q (m : io A) (f : A -> io B) (R : B -> Prop) :
  (forall a, paths Q (f a) (fun _ b => R b)) -> paths Q (bind m f) (fun _ b => R b).
Proof.
  intros Hf. apply paths_bind. eapply paths_mono; [|apply paths_true].
  intros t1 a _. apply Hf.
Qed.

(** Continuations that agree on every result a path can produce give
    equivalent trees. *)
Lemma bind_cong_paths {A B} (m : io A) (f g : A -> io B) (R : A -> Prop) :
  paths any_answer m (fun _ a => R a) -> (forall a, R a -> f a ≅ g a) ->
  bind m f ≅ bind m g.
Proof.
  revert R. induction m as [a|p k IH|p v k IH|ms k IH]; simpl; intros R H Hfg.
  - auto.
  - constructor. intros v Hv. eapply IH; [apply H; [exact Hv | exact I] | exact Hfg].
  - constructor. eapply IH; eauto.
  - constructor. eapply IH; eauto.
Qed.

(** ** Traces *)

Definition ev_sleep (e : event) : Z := match e with EvSleep ms => ms | _ => 0 end.

(** Total time spent in [::Sleep] along a trace. *)
Definition sleep_total (tr : list event) : Z := fold_right (fun e acc => ev_sleep e + acc) 0 tr.

Definition is_write (e : event) : bool := match e with EvWrite _ _ => true | _ => false end.

Definition is_write_of (port v : Z) (e : event) : bool :=
  match e with EvWrite p x => (p =? port) && (x =? v) | _ => false end.

Definition is_read_of (port : Z) (e : event) : bool :=
  match e with EvRead p _ => p =? port | _ => false end.

Lemma sleep_total_app t1 t2 : sleep_total (t1 ++ t2) = sleep_total t1 + sleep_total t2.
Proof. induction t1 as [|e t1 IH]; simpl; [reflexivity | rewrite IH; lia]. Qed.

#[export] Hint Rewrite sleep_total_app : ec_rw.

(** ** Loops

    [loop fuel guard body s] is the C loop [while (guard(s)) { ... }]
    whose body either continues with a new state ([inl]) or leaves the
    loop with a result ([break] or [return]: [inr]).  A normal exit
    returns [inl] of the final state.  The fuel bounds the number of
    iterations; [loop_fuel_adequate] and [loop_exit] below show that a
    fuel at least the loop's measure is never what stops it. *)
Fixpoint loop {St R} (fuel : nat) (guard : St -> bool) (body : St -> io (St + R))
    (s : St) : io (St + R) :=
  match fuel with
  | O => Ret (inl s)
  | S n =>
      if guard s then
        x <- body s ;;
        match x with
        | inl s' => loop n guard body s'
        | inr r => Ret (inr r)
        end
      else Ret (inl s)
  end.

Section LoopFuel.
Context {St R : Type} (guard : St -> bool) (body : St -> io (St + R)) (measure : St -> nat).

(** The measure is positive while the loop condition holds, and every
    iteration decreases it. *)
Hypothesis guard_measure : forall s, guard s = true -> (0 < measure s)%nat.
Hypothesis body_decreases : forall s, guard s = true ->
  paths any_answer (body s)
    (fun _ x => match x with inl s' => (measure s' < measure s)%nat | inr _ => True end).

Lemma loop_fuel_irrelevant n m s :
  (measure s <= n)%nat -> (measure s <= m)%nat -> loop n guard body s ≅ loop m guard body s.
Proof.
  revert m s. induction n as [|n IH]; intros m s Hn Hm.
  - destruct m as [|m]; simpl; [reflexivity|].
    destruct (guard s) eqn:G; [pose proof (guard_measure s G); lia | reflexivity].
  - destruct m as [|m]; simpl.
    + destruct (guard s) eqn:G; [pose proof (guard_measure s G); lia | reflexivity].
    + destruct (guard s) eqn:G; [|reflexivity].
      eapply bind_cong_paths; [apply body_decreases, G|].
      intros [s'|r] Hlt; [apply IH; lia | reflexivity].
Qed.

(** Fuel beyond the measure does not change the program. *)
Theorem loop_fuel_adequate n s :
  (measure s <= n)%nat -> loop n guard body s ≅ loop (measure s) guard body s.
Proof. intros H. apply loop_fuel_irrelevant; lia. Qed.

(** With enough fuel, the loop is the solution of the C loop's
    fixpoint equation. *)
Lemma loop_unfold s :
  loop (measure s) guard body s ≅
    if guard s then
      x <- body s ;;
      match x with
      | inl s' => loop (measure s') guard body s'
      | inr r => Ret (inr r)
      end
    else Ret (inl s).
Proof.
  destruct (guard s) eqn:G; [|destruct (measure s); simpl; rewrite ?G; reflexivity].
  pose proof (guard_measure s G) as Hpos.
  destruct (measure s) as [|n] eqn:E; [lia|]. simpl. rewrite G.
  eapply bind_cong_paths; [apply body_decreases, G|].
  intros [s'|r] Hlt; [rewrite E in Hlt; apply loop_fuel_adequate; lia | reflexivity].
Qed.

(** A normal exit happens only when the loop condition is false: the
    fuel never runs out first. *)
Theorem loop_exit n s :
  (measure s <= n)%nat ->
  paths any_answer (loop n guard body s)
    (fun _ x => match x with inl s' => guard s' = false | inr _ => True end).
Proof.
  revert s. induction n as [|n IH]; intros s Hn; simpl.
  - destruct (guard s) eqn:G; [pose proof (guard_measure s G); lia | simpl; first [reflexivity | exact G]].
  - destruct (guard s) eqn:G; [|simpl; first [reflexivity | exact G]].
    apply paths_bind. eapply paths_mono; [|apply body_decreases, G].
    intros _ [s'|r] Hlt; simpl; [apply IH; lia | exact I].
Qed.
End LoopFuel.

(** ** Port devices

    The interface a port driver offers the transport: reading a port
    answers a byte and may change the device's state (reading the data
    port consumes the output buffer), writing a port and sleeping change
    its state. *)
Class PortDevice (D : Type) := {
  dev_in : D -> Z -> D * Z;
  dev_out : D -> Z -> Z -> D;
  dev_sleep : D -> Z -> D;
  dev_in_byte : forall d p, 0 <= snd (dev_in d p) < 256
}.

(** Running a program against a device: final state, trace, result. *)
Fixpoint run {D A} `{PortDevice D} (d : D) (m : io A) : D * list event * A :=
  match m with
  | Ret a => (d, [], a)
  | InPort p k =>
      let '(d1, v) := dev_in d p in
      let '(d2, tr, a) := run d1 (k v) in (d2, EvRead p v :: tr, a)
  | OutPort p v k =>
      let '(d2, tr, a) := run (dev_out d p v) k in (d2, EvWrite p v :: tr, a)
  | Delay ms k =>
      let '(d2, tr, a) := run (dev_sleep d ms) k in (d2, EvSleep ms :: tr, a)
  end.

Section Run.
Context {D : Type} `{PortDevice D}.

Lemma run_bind {A B} (d : D) (m : io A) (f : A -> io B) :
  run d (bind m f) =
    let '(d1, t1, a) := run d m in
    let '(d2, t2, b) := run d1 (f a) in (d2, t1 ++ t2, b).
Proof.
  revert d. induction m as [a|p k IH|p v k IH|ms k IH]; intros d; simpl.
  - destruct (run d (f a)) as [[? ?] ?]; reflexivity.
  - destruct (dev_in d p) as [d1 v]; rewrite IH.
    destruct (run d1 (k v)) as [[? ?] ?]; destruct (run _ (f _)) as [[? ?] ?]; reflexivity.
  - rewrite IH. destruct (run _ k) as [[? ?] ?]; destruct (run _ (f _)) as [[? ?] ?]; reflexivity.
  - rewrite IH. destruct (run _ k) as [[? ?] ?]; destruct (run _ (f _)) as [[? ?] ?]; reflexivity.
Qed.

Lemma run_io_eq {A} (d : D) (m1 m2 : io A) : m1 ≅ m2 -> run d m1 = run d m2.
Proof.
  intros E. revert d. induction E as [a|p k1 k2 Hk IH|p v k1 k2 Hk IH|ms k1 k2 Hk IH];
    intros d; simpl; try (rewrite IH; reflexivity); [reflexivity|].
  pose proof (dev_in_byte d p) as Hb. destruct (dev_in d p) as [d1 v]. simpl in Hb.
  rewrite (IH v Hb). reflexivity.
Qed.

(** The final state and result of a run, without its trace. *)
Definition exec {A} (d : D) (m : io A) : D * A := let '(d', _, a) := run d m in (d', a).

Lemma exec_bind {A B} (d : D) (m : io A) (f : A -> io B) :
  exec d (bind m f) = let '(d1, a) := exec d m in exec d1 (f a).
Proof.
  unfold exec. rewrite run_bind.
  destruct (run d m) as [[d1 t1] a]. destruct (run d1 (f a)) as [[? ?] ?]. reflexivity.
Qed.

Lemma exec_io_eq {A} (d : D) (m1 m2 : io A) : m1 ≅ m2 -> exec d m1 = exec d m2.
Proof. intros E. unfold exec. rewrite (run_io_eq d m1 m2 E). reflexivity. Qed.

Lemma exec_ret {A} (d : D) (a : A) : exec d (Ret a) = (d, a).
Proof. reflexivity. Qed.

Lemma exec_read {A} (d : D) p (k : Z -> io A) :
  exec d (InPort p k) = exec (fst (dev_in d p)) (k (snd (dev_in d p))).
Proof. unfold exec. simpl. destruct (dev_in d p) as [d1 v]. simpl. destruct (run d1 (k v)) as [[? ?] ?]. reflexivity. Qed.

Lemma exec_write {A} (d : D) p v (k : io A) : exec d (OutPort p v k) = exec (dev_out d p v) k.
Proof. unfold exec. simpl. destruct (run _ k) as [[? ?] ?]. reflexivity. Qed.

Lemma exec_sleep {A} (d : D) ms (k : io A) : exec d (Delay ms k) = exec (dev_sleep d ms) k.
Proof. unfold exec. simpl. destruct (run _ k) as [[? ?] ?]. reflexivity. Qed.

(** A program that performs no port write: on every branch, only reads
    and sleeps. *)
Fixpoint no_writes {A} (m : io A) : Prop :=
  match m with
  | Ret _ => True
  | InPort _ k => forall v, no_writes (k v)
  | OutPort _ _ _ => False
  | Delay _ k => no_writes k
  end.

(** Soundness of [paths]: for a device that keeps an invariant and, in
    every state of it, answers reads as [Q] allows, every run is one of
    the paths of the program. *)
Variable Inv : D -> Prop.
Variable Q : Z -> Z -> Prop.
Hypothesis inv_in : forall d p, Inv d -> Inv (fst (dev_in d p)) /\ Q p (snd (dev_in d p)).
Hypothesis inv_out : forall d p v, Inv d -> Inv (dev_out d p v).
Hypothesis inv_sleep : forall d ms, Inv d -> Inv (dev_sleep d ms).

Theorem paths_run {A} (m : io A) P d :
  Inv d -> paths Q m P -> let '(d', tr, a) := run d m in P tr a /\ Inv d'.
Proof.
  revert P d. induction m as [a|p k IH|p v k IH|ms k IH]; intros P d Hd Hm; simpl in *.
  - auto.
  - pose proof (dev_in_byte d p) as Hb. destruct (inv_in d p Hd) as [Hd1 Hq].
    destruct (dev_in d p) as [d1 v]. simpl in *.
    specialize (IH v _ d1 Hd1 (Hm v Hb Hq)). destruct (run d1 (k v)) as [[? ?] ?]. exact IH.
  - specialize (IH _ _ (inv_out d p v Hd) Hm). destruct (run _ k) as [[? ?] ?]. exact IH.
  - specialize (IH _ _ (inv_sleep d ms Hd) Hm). destruct (run _ k) as [[? ?] ?]. exact IH.
Qed.
End Run.

Lemma sleep_total_cons e tr : sleep_total (e :: tr) = ev_sleep e + sleep_total tr.
Proof. reflexivity. Qed.

#[export] Hint Rewrite sleep_total_cons : ec_rw.
