(* ===== verification/Poll.v ===== *)
(** * The polling loops of portio.cpp

    Each handshake phase of [ReadByteFromEC] and [WriteByteToEC] is the
    loop
      [for (iTime = 0; iTime < iTimeout; iTime += iTick) {
         data = (char)ReadPort(EC_CTRLPORT) & 0xff;
         if (<condition on data>) { iOK = true; break; }
         ::Sleep(iTick); }]
    modelled as [wait_ec cond timeout] over the [loop] combinator of
    [IO]; [wait_ec] returns whether the loop left by [break] (what the
    source records in [iOK]).  The file proves that the bit tests see the
    status byte unchanged by the [(char)] casts, that the loop is the
    reference poll [poll_ref] with [ceil(timeout / iTick)] samples, and
    the complete description of the paths of a poll. *)

From Stdlib Require Import ZArith Lia Bool List.
From S2P Require Import Prelude.
From S2P Require Import IO.
Import ListNotations.
Open Scope Z_scope.
Open Scope io_scope.

(** ** Protocol constants (portio.cpp, lines 35-49) *)

Definition EC_DATAPORT : Z := 0x1600.
Definition EC_CTRLPORT : Z := 0x1604.

Definition EC_STAT_OBF : Z := 0x01.
Definition EC_STAT_IBF : Z := 0x02.
Definition EC_STAT_CMD : Z := 0x08.

(** [(char)0x80] etc.: the commands are [char] constants. *)
Definition EC_CTRLPORT_READ : Z := schar 0x80.
Definition EC_CTRLPORT_WRITE : Z := schar 0x81.
Definition EC_CTRLPORT_QUERY : Z := schar 0x84.

(** The local constants both methods declare (lines 64-68 and 131-135). *)
Definition iTimeout : Z := 100.
Definition iTimeoutBuf : Z := 1000.
Definition iTick : Z := 10.
Definition numSetupTries : Z := 5.

(** ** The status sample

    [data = (char)ReadPort(EC_CTRLPORT) & 0xff;]: the [UCHAR] read is
    cast to [char], promoted to [int], masked, and stored in the [char]
    [data] again. *)
Definition status_sample (raw : Z) : Z := schar (schar raw &&& 0xff).

(** [!(data & (EC_STAT_IBF | EC_STAT_OBF))]: both buffers empty. *)
Definition buffers_clear (data : Z) : bool := data &&& (EC_STAT_IBF ||| EC_STAT_OBF) =? 0.

(** [(data & EC_STAT_OBF)]: the output buffer holds a byte. *)
Definition obf_set (data : Z) : bool := negb (data &&& EC_STAT_OBF =? 0).

(** ** The polling loop *)

(** One iteration: sample the status; [break] when the condition holds,
    otherwise sleep one tick and advance [iTime]. *)
Definition poll_body (cond : Z -> bool) (iTime : Z) : io (Z + unit) :=
  raw <- ReadPort EC_CTRLPORT ;;
  let data := status_sample raw in
  if cond data then Ret (inr tt)
  else (Sleep iTick ;; Ret (inl (iTime + iTick))).

(** The loop's measure: the time left before the deadline. *)
Definition wait_measure (timeout iTime : Z) : nat := Z.to_nat (timeout - iTime).

Definition wait_loop (cond : Z -> bool) (timeout iTime : Z) : io (Z + unit) :=
  loop (wait_measure timeout iTime) (fun t => t <? timeout) (poll_body cond) iTime.

(** The whole [for] statement from [iTime = 0]; the result is [true]
    exactly when the loop was left by [break] (where the source sets
    [iOK = true]). *)
Definition wait_ec (cond : Z -> bool) (timeout : Z) : io bool :=
  r <- wait_loop cond timeout 0 ;;
  Ret (match r with inr _ => true | inl _ => false end).

(** ** The reference poll: at most [n] samples, one tick apart *)

Fixpoint poll_ref (n : nat) (cond : Z -> bool) : io bool :=
  match n with
  | O => Ret false
  | S n' =>
      raw <- ReadPort EC_CTRLPORT ;;
      if cond (status_sample raw) then Ret true
      else (Sleep iTick ;; poll_ref n' cond)
  end.

(** Number of iterations the [for] condition allows: [ceil(timeout / iTick)]. *)
Definition samples (timeout : Z) : nat := Z.to_nat ((timeout + iTick - 1) / iTick).

(** The trace of samples that failed, each followed by its sleep. *)
Definition poll_trace (vs : list Z) : list event :=
  flat_map (fun v => [EvRead EC_CTRLPORT v; EvSleep iTick]) vs.

(** ** The status sample keeps the status bits *)

(** The casts of the status sample keep its low byte. *)
Lemma status_sample_land raw m : 0 <= m < 256 -> status_sample raw &&& m = uchar raw &&& m.
Proof.
  intros Hm. unfold status_sample.
  rewrite land_low_byte by exact Hm.
  rewrite uchar_schar, land_ff, uchar_schar.
  rewrite (uchar_small (uchar raw)) by apply uchar_range. reflexivity.
Qed.

Lemma buffers_clear_sample raw :
  buffers_clear (status_sample raw) = (uchar raw &&& 3 =? 0).
Proof. unfold buffers_clear. rewrite status_sample_land by (unfold EC_STAT_IBF, EC_STAT_OBF; simpl; lia). reflexivity. Qed.

Lemma obf_set_sample raw :
  obf_set (status_sample raw) = negb (uchar raw &&& 1 =? 0).
Proof. unfold obf_set. rewrite status_sample_land by (unfold EC_STAT_IBF, EC_STAT_OBF; simpl; lia). reflexivity. Qed.

(** ** The loop is the reference poll *)

Lemma wait_body_decreases cond timeout t :
  (t <? timeout) = true ->
  paths any_answer (poll_body cond t)
    (fun _ x => match x with
                | inl t' => (wait_measure timeout t' < wait_measure timeout t)%nat
                | inr _ => True end).
Proof.
  intros Ht. apply Z.ltb_lt in Ht. unfold poll_body, wait_measure, iTick. simpl.
  intros v _ _. destruct (cond (status_sample v)); simpl; [exact I | lia].
Qed.

Lemma wait_guard_measure timeout t :
  (t <? timeout) = true -> (0 < wait_measure timeout t)%nat.
Proof. intros Ht. apply Z.ltb_lt in Ht. unfold wait_measure. lia. Qed.

Definition wait_result (r : Z + unit) : io bool :=
  Ret (match r with inr _ => true | inl _ => false end).

Lemma wait_loop_poll_ref cond timeout k : forall t,
  Z.to_nat ((timeout - t + iTick - 1) / iTick) = k ->
  bind (wait_loop cond timeout t) wait_result ≅ poll_ref k cond.
Proof.
  induction k as [|k IH]; intros t Hk; unfold wait_loop;
    rewrite (loop_unfold _ _ _ (wait_guard_measure timeout) (wait_body_decreases cond timeout));
    unfold iTick in *; destruct (Z.ltb_spec t timeout) as [Ht|Ht].
  - exfalso. assert (0 < (timeout - t + 10 - 1) / 10) by (apply Z.div_str_pos; lia). lia.
  - reflexivity.
  - cbn [bind poll_body ReadPort Sleep poll_ref]. constructor. intros v _.
    destruct (cond (status_sample v)); [reflexivity|]. constructor. apply IH.
    unfold iTick. Z.div_mod_to_equations. lia.
  - exfalso. Z.div_mod_to_equations. lia.
Qed.

(** A wait phase from [iTime = 0] is the reference poll. *)
Lemma wait_ec_poll cond timeout :
  wait_ec cond timeout ≅ poll_ref (samples timeout) cond.
Proof. apply wait_loop_poll_ref. unfold samples. rewrite Z.sub_0_r. reflexivity. Qed.

(** C13: The [for] loop of a wait phase is the reference poll with
    [ceil(timeout / iTick)] samples. *)
Theorem wait_ec_poll_ref cond timeout :
  wait_ec cond timeout ≅ poll_ref (samples timeout) cond.
Proof. intros; apply wait_ec_poll; assumption. Qed.

Lemma samples_iTimeoutBuf : samples iTimeoutBuf = 100%nat.
Proof. reflexivity. Qed.

Lemma samples_iTimeout : samples iTimeout = 10%nat.
Proof. reflexivity. Qed.

(** ** The paths of a poll *)

Lemma poll_trace_app vs ws : poll_trace (vs ++ ws) = poll_trace vs ++ poll_trace ws.
Proof. unfold poll_trace. apply flat_map_app. Qed.

Lemma sleep_total_poll_trace vs : sleep_total (poll_trace vs) = iTick * Z.of_nat (length vs).
Proof.
  induction vs as [|v vs IH]; [reflexivity|].
  change (poll_trace (v :: vs)) with ([EvRead EC_CTRLPORT v; EvSleep iTick] ++ poll_trace vs).
  rewrite sleep_total_app, IH.
  change (sleep_total [EvRead EC_CTRLPORT v; EvSleep iTick]) with (0 + (iTick + 0)).
  change (length (v :: vs)) with (S (length vs)). rewrite Nat2Z.inj_succ. unfold iTick. lia.
Qed.

#[export] Hint Rewrite poll_trace_app sleep_total_poll_trace : ec_rw.

(** What a poll of at most [n] samples does, on every path: it reads
    the status port, sleeping one tick after each sample that fails the
    condition; it returns [true] right after the first sample that
    satisfies it, within the first [n], and [false] after [n] failing
    samples and [n] sleeps. *)
Definition poll_post (n : nat) (cond : Z -> bool) (tr : list event) (ok : bool) : Prop :=
  exists fails,
    Forall (fun v => cond (status_sample v) = false) fails /\
    if ok then exists v, cond (status_sample v) = true /\ (length fails < n)%nat /\
                         tr = poll_trace fails ++ [EvRead EC_CTRLPORT v]
    else length fails = n /\ tr = poll_trace fails.

Lemma poll_ref_paths n cond : paths any_answer (poll_ref n cond) (poll_post n cond).
Proof.
  induction n as [|n IH]; simpl.
  - exists []. split; [constructor | split; reflexivity].
  - intros v _ _. destruct (cond (status_sample v)) eqn:C; simpl.
    + exists []. split; [constructor|]. exists v. repeat split; [exact C | simpl; lia].
    + eapply paths_mono; [|exact IH].
      intros tr ok [fails [Hf Hok]]. exists (v :: fails). split; [constructor; assumption|].
      destruct ok.
      * destruct Hok as [w [Hw [Hlen ->]]]. exists w. simpl. repeat split; [exact Hw | lia].
      * destruct Hok as [Hlen ->]. simpl. split; [lia | reflexivity].
Qed.

(** A status port whose every sample fails the condition makes the poll
    time out after exactly [n] samples and [n] ticks of sleep. *)
Lemma poll_ref_timeout n cond (Q : Z -> Z -> Prop) :
  (forall v, 0 <= v < 256 -> Q EC_CTRLPORT v -> cond (status_sample v) = false) ->
  paths Q (poll_ref n cond)
    (fun tr ok => ok = false /\ exists vs, length vs = n /\ tr = poll_trace vs).
Proof.
  intros Hbusy. induction n as [|n IH]; simpl.
  - split; [reflexivity|]. exists []. split; reflexivity.
  - intros v Hv HQ. rewrite (Hbusy v Hv HQ). simpl.
    eapply paths_mono; [|exact IH].
    intros tr ok [-> [vs [Hlen ->]]]. split; [reflexivity|]. exists (v :: vs).
    split; [simpl; lia | reflexivity].
Qed.

(** C14: The C loop of a wait phase, on every path. *)
Theorem wait_ec_paths cond timeout :
  paths any_answer (wait_ec cond timeout) (poll_post (samples timeout) cond).
Proof. rewrite wait_ec_poll. apply poll_ref_paths. Qed.

(** ** Facts about the trace of a poll *)

Lemma poll_trace_no_write vs : filter is_write (poll_trace vs) = [].
Proof. induction vs as [|v vs IH]; [reflexivity | exact IH]. Qed.

Lemma poll_post_no_write n cond tr ok : poll_post n cond tr ok -> filter is_write tr = [].
Proof.
  intros [fails [_ H]]. destruct ok.
  - destruct H as [v [_ [_ ->]]]. rewrite filter_app, poll_trace_no_write. reflexivity.
  - destruct H as [_ ->]. apply poll_trace_no_write.
Qed.

(** A poll sleeps one tick per failed sample: [iTick * n] when it times
    out, at most [iTick * (n - 1)] when it succeeds. *)
Lemma poll_post_sleep n cond tr ok :
  poll_post n cond tr ok ->
  sleep_total tr <= iTick * (Z.of_nat n - if ok then 1 else 0).
Proof.
  intros [fails [_ H]]. destruct ok.
  - destruct H as [v [_ [Hlen ->]]]. rewrite sleep_total_app, sleep_total_poll_trace.
    change (sleep_total [EvRead EC_CTRLPORT v]) with 0. unfold iTick. lia.
  - destruct H as [Hlen ->]. rewrite sleep_total_poll_trace, Hlen. unfold iTick. lia.
Qed.

(** ** Termination of the polling loop *)

(** C15: The [for] loop leaves either by [break] or because its condition
    [iTime < iTimeout] became false: the fuel of the model never cuts it
    short. *)
Theorem wait_loop_exit cond timeout :
  paths any_answer (wait_loop cond timeout 0)
    (fun _ r => match r with inl t => timeout <= t | inr _ => True end).
Proof.
  eapply paths_mono; [|apply (loop_exit _ _ (wait_measure timeout) (wait_guard_measure timeout)
                                (wait_body_decreases cond timeout)); lia].
  intros _ [t|[]] H; [apply Z.ltb_ge, H | exact I].
Qed.
