(* ===== verification/LogFormat.v ===== *)
(** * The diagnostic log of [ReadByteFromEC]

    portio.cpp keeps two globals, [int verbosity] and [char logbuf[8192]]
    (lines 52-54); after a successful read it runs (line 118)
      [if (verbosity > 0) sprintf(logbuf + strlen(logbuf),
                                 "readec: offset= %x, data= %02x\n", offset, *pdata);]
    This file models the [printf] conversions [%x] (the [int] argument
    printed as an unsigned 32-bit value in lower-case hexadecimal) and
    [%02x] (the same, zero-padded to two digits; [*pdata] is a [char]
    promoted to [int]), the line, and the append.  It proves that a
    reader of the format recovers both fields of every line, the length
    of a line, and that [logbuf] outgrows its 8192 bytes after 293
    logged reads.  What a read logs for a byte of [0x80] or more is in
    [Transport] ([ReadByteFromEC_log_data]). *)

From Stdlib Require Import ZArith Lia Bool List String Ascii.
From S2P Require Import Prelude.
Import ListNotations.
Open Scope Z_scope.

(** ** Hexadecimal conversion of [printf] *)

(** A lower-case hexadecimal digit. *)
Definition hex_digit (d : Z) : ascii :=
  ascii_of_nat (Z.to_nat (if d <? 10 then 48 + d else 87 + d)).

(** Digits of [n], most significant first, in front of [acc]; the fuel
    bounds the number of digits (8 for a 32-bit value). *)
Fixpoint hex_rev (fuel : nat) (n : Z) (acc : string) : string :=
  match fuel with
  | O => acc
  | S f => if n =? 0 then acc else hex_rev f (n / 16) (String (hex_digit (n mod 16)) acc)
  end.

(** [%x] of an unsigned value: at least one digit. *)
Definition hex_of (n : Z) : string := if n =? 0 then "0"%string else hex_rev 8 n EmptyString.

Fixpoint zeros (n : nat) : string :=
  match n with O => EmptyString | S n' => String "0"%char (zeros n') end.

(** Zero padding to a minimum field width. *)
Definition pad_left (width : nat) (s : string) : string :=
  (zeros (width - String.length s) ++ s)%string.

(** [%<width>x] applied to an [int]: printed as [unsigned int]. *)
Definition fmt_x (width : nat) (v : Z) : string := pad_left width (hex_of (uint32 v)).

(** ** The globals and the line of line 118 *)

Definition LOGBUF_SIZE : Z := 8192.

Record globals := mk_globals { verbosity : Z; logbuf : string }.

Definition newline : string := String (ascii_of_nat 10) EmptyString.

Definition readec_line (offset pdata : Z) : string :=
  ("readec: offset= " ++ fmt_x 0 offset ++ ", data= " ++ fmt_x 2 pdata ++ newline)%string.

(** [if (verbosity > 0) sprintf(logbuf + strlen(logbuf), ...)]: the line
    is written where the string in [logbuf] ends. *)
Definition log_readec (g : globals) (offset pdata : Z) : globals :=
  if verbosity g >? 0
  then {| verbosity := verbosity g; logbuf := (logbuf g ++ readec_line offset pdata)%string |}
  else g.

(** The string and its terminating NUL fit in [char logbuf[8192]]. *)
Definition logbuf_fits (g : globals) : Prop := Z.of_nat (String.length (logbuf g)) < LOGBUF_SIZE.

(** The same append as the two steps the C code takes: [strlen(logbuf)],
    then [sprintf] writing the line and its terminator at that
    position, which ends the string there. *)
Definition strlen (g : globals) : nat := String.length (logbuf g).

Definition sprintf_at (g : globals) (pos : nat) (line : string) : globals :=
  {| verbosity := verbosity g; logbuf := (substring 0 pos (logbuf g) ++ line)%string |}.

(** ** Reading hexadecimal back *)

Definition hex_value (c : ascii) : option Z :=
  let n := Z.of_nat (nat_of_ascii c) in
  if (48 <=? n) && (n <=? 57) then Some (n - 48)
  else if (97 <=? n) && (n <=? 102) then Some (n - 87)
  else None.

Fixpoint parse_hex_from (acc : Z) (s : string) : option Z :=
  match s with
  | EmptyString => Some acc
  | String c s' =>
      match hex_value c with
      | Some d => parse_hex_from (acc * 16 + d) s'
      | None => None
      end
  end.

Definition parse_hex (s : string) : option Z := parse_hex_from 0 s.

(** ** Lemmas on strings and digits *)

Lemma string_length_append (s1 s2 : string) :
  String.length (s1 ++ s2) = (String.length s1 + String.length s2)%nat.
Proof. induction s1 as [|c s1 IH]; simpl; [reflexivity | rewrite IH; reflexivity]. Qed.

#[export] Hint Rewrite string_length_append : ec_rw.

Lemma hex_value_digit d : 0 <= d < 16 -> hex_value (hex_digit d) = Some d.
Proof.
  intros H.
  assert (d = 0 \/ d = 1 \/ d = 2 \/ d = 3 \/ d = 4 \/ d = 5 \/ d = 6 \/ d = 7 \/ d = 8 \/
          d = 9 \/ d = 10 \/ d = 11 \/ d = 12 \/ d = 13 \/ d = 14 \/ d = 15) as Hd by lia.
  repeat destruct Hd as [-> | Hd]; subst; reflexivity.
Qed.

Lemma parse_hex_from_app a s1 s2 :
  parse_hex_from a (s1 ++ s2) =
    match parse_hex_from a s1 with Some a' => parse_hex_from a' s2 | None => None end.
Proof.
  revert a. induction s1 as [|c s1 IH]; intros a; simpl; [reflexivity|].
  destruct (hex_value c); [apply IH | reflexivity].
Qed.

Lemma parse_zeros k a : parse_hex_from a (zeros k) = Some (a * 16 ^ Z.of_nat k).
Proof.
  revert a. induction k as [|k IH]; intros a; simpl zeros; simpl parse_hex_from.
  - f_equal. lia.
  - rewrite IH. f_equal. rewrite Nat2Z.inj_succ, Z.pow_succ_r by lia. lia.
Qed.

(** The digits [hex_rev] puts in front of [acc] read back as [n]. *)
Lemma hex_rev_parse f : forall n a acc,
  0 <= n < 16 ^ Z.of_nat f ->
  exists k, parse_hex_from a (hex_rev f n acc) = parse_hex_from (a * 16 ^ k + n) acc /\ 0 <= k.
Proof.
  induction f as [|f IH]; intros n a acc Hn; simpl hex_rev.
  - exists 0. simpl in Hn. replace n with 0 by lia. split; [f_equal; lia | lia].
  - destruct (Z.eqb_spec n 0) as [->|Hn0]; [exists 0; split; [f_equal; lia | lia]|].
    rewrite Nat2Z.inj_succ, Z.pow_succ_r in Hn by lia.
    destruct (IH (n / 16) a (String (hex_digit (n mod 16)) acc)) as [k [Hk Hk0]].
    { split; [apply Z.div_pos; lia | apply Z.div_lt_upper_bound; lia]. }
    exists (Z.succ k). split; [|lia]. rewrite Hk. simpl.
    rewrite hex_value_digit by (apply Z.mod_pos_bound; lia).
    f_equal. rewrite Z.pow_succ_r by lia.
    pose proof (Z.div_mod n 16 ltac:(lia)). lia.
Qed.

Lemma hex_rev_length f : forall n acc,
  (String.length acc <= String.length (hex_rev f n acc))%nat /\
  (n <> 0 -> f <> O -> (String.length acc < String.length (hex_rev f n acc))%nat).
Proof.
  induction f as [|f IH]; intros n acc; simpl; [split; [lia | intros _ []; reflexivity]|].
  destruct (Z.eqb_spec n 0) as [Hn|Hn]; [split; [lia | intros []; exact Hn]|].
  destruct (IH (n / 16) (String (hex_digit (n mod 16)) acc)) as [H1 _]. simpl in H1.
  split; [lia | intros _ _; lia].
Qed.

Lemma hex_of_nonempty n : (1 <= String.length (hex_of n))%nat.
Proof.
  unfold hex_of. destruct (Z.eqb_spec n 0); [simpl; lia|].
  destruct (hex_rev_length 8 n EmptyString) as [_ H]. simpl in H. apply H; [exact n0 | discriminate].
Qed.

Lemma zeros_length k : String.length (zeros k) = k.
Proof. induction k as [|k IH]; simpl; [reflexivity | rewrite IH; reflexivity]. Qed.

#[export] Hint Rewrite zeros_length : ec_rw.

Lemma fmt_x_length w v : (Nat.max 1 w <= String.length (fmt_x w v))%nat.
Proof.
  unfold fmt_x, pad_left. autorewrite with ec_rw.
  pose proof (hex_of_nonempty (uint32 v)). lia.
Qed.

(** ** The printed values read back *)

(** The digits [%x] prints parse back to the unsigned value. *)
Lemma fmt_x_parse w v : parse_hex (fmt_x w v) = Some (uint32 v).
Proof.
  unfold parse_hex, fmt_x, pad_left. rewrite parse_hex_from_app, parse_zeros, Z.mul_0_l.
  unfold hex_of. destruct (Z.eqb_spec (uint32 v) 0) as [E|E]; [rewrite E; reflexivity|].
  destruct (hex_rev_parse 8 (uint32 v) 0 EmptyString) as [k [Hk _]];
    [pose proof (uint32_range v); simpl; lia|].
  rewrite Hk, Z.mul_0_l. reflexivity.
Qed.

(** Every log line has at least 28 characters: 16 of prefix, one digit
    of offset, 8 of separator, two digits of data and the newline. *)
Lemma readec_line_length o p : (28 <= String.length (readec_line o p))%nat.
Proof.
  unfold readec_line, newline. autorewrite with ec_rw.
  pose proof (fmt_x_length 0 o). pose proof (fmt_x_length 2 p). simpl. lia.
Qed.

(** ** Growth of [logbuf] *)

Definition log_all (g : globals) (entries : list (Z * Z)) : globals :=
  fold_left (fun g '(o, p) => log_readec g o p) entries g.

Lemma log_readec_verbosity g o p : verbosity (log_readec g o p) = verbosity g.
Proof. unfold log_readec. match goal with |- context [if ?b then _ else _] => destruct b end; reflexivity. Qed.

Lemma log_readec_length g o p :
  String.length (logbuf (log_readec g o p)) =
    (String.length (logbuf g) + if verbosity g >? 0 then String.length (readec_line o p) else 0)%nat.
Proof.
  unfold log_readec. destruct (verbosity g >? 0); simpl; [apply string_length_append | lia].
Qed.

Lemma substring_prefix (s t : string) : substring 0 (String.length s) (s ++ t) = s.
Proof. induction s as [|c s IH]; simpl; [destruct t; reflexivity | rewrite IH; reflexivity]. Qed.

Lemma substring_all (s : string) : substring 0 (String.length s) s = s.
Proof. induction s as [|c s IH]; simpl; [reflexivity | rewrite IH; reflexivity]. Qed.

Lemma string_app_inv_l (s a b : string) : String.append s a = String.append s b -> a = b.
Proof. induction s as [|c s IH]; simpl; [auto | intros H; injection H; exact IH]. Qed.

(** The append of line 118 is [strlen] followed by [sprintf] there. *)
Lemma log_readec_steps g o p :
  log_readec g o p = if verbosity g >? 0 then sprintf_at g (strlen g) (readec_line o p) else g.
Proof. unfold log_readec, sprintf_at, strlen. rewrite substring_all. reflexivity. Qed.

Lemma log_all_length entries : forall g,
  verbosity g > 0 ->
  (String.length (logbuf g) + 28 * List.length entries <= String.length (logbuf (log_all g entries)))%nat.
Proof.
  unfold log_all. induction entries as [|[o p] entries IH]; intros g Hv; simpl; [lia|].
  specialize (IH (log_readec g o p)). rewrite log_readec_verbosity in IH.
  specialize (IH Hv). rewrite log_readec_length in IH.
  pose proof (readec_line_length o p).
  destruct (Z.gtb_spec (verbosity g) 0); [|lia]. lia.
Qed.

(** C18: Nothing in portio.cpp bounds [logbuf]: with [verbosity > 0], 293
    logged reads write past the end of [char logbuf[8192]] whatever its
    content was. *)
Theorem logbuf_overflow g entries :
  verbosity g > 0 -> (293 <= List.length entries)%nat -> ~ logbuf_fits (log_all g entries).
Proof.
  intros Hv Hn. unfold logbuf_fits, LOGBUF_SIZE.
  pose proof (log_all_length entries g Hv). lia.
Qed.

Definition logged_reads (n : nat) : list (Z * Z) := repeat (0, 0) n.

Lemma logbuf_overflow_witness :
  (verbosity (mk_globals 1 EmptyString) > 0 /\ (293 <= List.length (logged_reads 293))%nat) /\
  ~ logbuf_fits (log_all (mk_globals 1 EmptyString) (logged_reads 293)).
Proof.
  split; [split; [reflexivity | vm_compute; lia]|].
  apply logbuf_overflow; [reflexivity | vm_compute; lia].
Defined.

(** ** Reading a whole log line back *)

Fixpoint strip_prefix (p s : string) : option string :=
  match p, s with
  | EmptyString, _ => Some s
  | String c p', String c' s' => if Ascii.eqb c c' then strip_prefix p' s' else None
  | String _ _, EmptyString => None
  end.

(** Hexadecimal digits up to the character [stop], which is consumed. *)
Fixpoint parse_hex_until (stop : ascii) (acc : Z) (s : string) : option (Z * string) :=
  match s with
  | EmptyString => None
  | String c s' =>
      if Ascii.eqb c stop then Some (acc, s')
      else match hex_value c with
           | Some d => parse_hex_until stop (acc * 16 + d) s'
           | None => None
           end
  end.

(** The reader of a [readec] line: offset and data as printed. *)
Definition parse_readec_line (s : string) : option (Z * Z) :=
  match strip_prefix "readec: offset= " s with
  | None => None
  | Some r1 =>
      match parse_hex_until ","%char 0 r1 with
      | None => None
      | Some (o, r2) =>
          match strip_prefix " data= " r2 with
          | None => None
          | Some r3 =>
              match parse_hex_until (ascii_of_nat 10) 0 r3 with
              | Some (d, EmptyString) => Some (o, d)
              | _ => None
              end
          end
      end
  end.

Lemma strip_prefix_app p s : strip_prefix p (p ++ s) = Some s.
Proof.
  induction p as [|c p IH]; simpl; [reflexivity|]. rewrite Ascii.eqb_refl. exact IH.
Qed.

Lemma parse_hex_until_app stop acc ds rest v :
  hex_value stop = None -> parse_hex_from acc ds = Some v ->
  parse_hex_until stop acc (ds ++ String stop rest) = Some (v, rest).
Proof.
  intros Hstop. revert acc. induction ds as [|c ds IH]; intros acc H; simpl in *.
  - injection H as ->. rewrite Ascii.eqb_refl. reflexivity.
  - destruct (hex_value c) as [d|] eqn:Hc; [|discriminate].
    destruct (Ascii.eqb_spec c stop) as [->|_]; [congruence|]. apply IH, H.
Qed.

(** The reader recovers both fields of a line. *)
Lemma readec_line_parse o p :
  parse_readec_line (readec_line o p) = Some (uint32 o, uint32 p).
Proof.
  unfold parse_readec_line, readec_line. rewrite strip_prefix_app.
  change (", data= " ++ ?x)%string with (String ","%char (" data= " ++ x)%string).
  rewrite (parse_hex_until_app _ _ _ _ (uint32 o)) by (reflexivity || apply fmt_x_parse).
  rewrite strip_prefix_app. unfold newline.
  rewrite (parse_hex_until_app _ _ _ _ (uint32 p)) by (reflexivity || apply fmt_x_parse).
  reflexivity.
Qed.

(** C20: Round trip of the diagnostic line: the reader of a [readec]
    line recovers from every line [ReadByteFromEC] logs the offset and
    the data as the unsigned 32-bit values [printf] printed. *)
Theorem readec_line_roundtrip o p :
  parse_readec_line (readec_line o p) = Some (uint32 o, uint32 p).
Proof. apply readec_line_parse. Qed.
