(* ===== verification/Transport.v ===== *)
(** * [ReadByteFromEC] and [WriteByteToEC]

    The two methods of portio.cpp, as the source writes them: the
    [while (numSetupTries > 0)] loop whose body runs the three waits of
    [Poll], with the flag [iOK], the early [return 0] after the first
    two waits, and the [numSetupTries = 1] that ends the loop after a
    successful last wait.  [setup_attempt] is one iteration of that
    loop (lines 72-112 and 139-176), [setup_loop] the whole loop.

    The reference machine [retry_ref] repeats an attempt ([attempt_ref],
    three reference polls) while it times out, at most [n] times, and
    returns the outcome of the last attempt.  [ReadByteFromEC_eq] and
    [WriteByteToEC_ref] prove that the source's control flow is that
    machine; the theorems about every path are proved on it. *)

From Stdlib Require Import ZArith Lia Bool List Morphisms.
From S2P Require Import Prelude.
From S2P Require Import IO.
From S2P Require Import Poll.
From S2P Require Import LogFormat.
Import ListNotations.
Open Scope Z_scope.
Open Scope io_scope.

(** ** The methods as written *)

(** One iteration of [while (numSetupTries > 0) { ... }]: the state is
    [(numSetupTries, iOK)]; [inr 0] is a [return 0] from inside the loop. *)
Definition setup_attempt (cmd : Z) (final : Z -> bool) (offset : Z) (st : Z * bool)
    : io ((Z * bool) + Z) :=
  let '(tries, iOK) := st in
  ok <- wait_ec buffers_clear iTimeoutBuf ;;        (* wait for full buffers to clear *)
  let iOK := iOK || ok in
  if negb iOK then Ret (inr 0) else                 (* if (!iOK) return 0; *)
  let iOK := false in
  WritePort EC_CTRLPORT cmd ;;                      (* READ or WRITE command *)
  ok <- wait_ec buffers_clear iTimeout ;;           (* wait for IBF and OBF to clear *)
  let iOK := iOK || ok in
  if negb iOK then Ret (inr 0) else
  let iOK := false in
  WritePort EC_DATAPORT offset ;;                   (* the register offset *)
  ok <- wait_ec final iTimeout ;;                   (* OBF set / IBF and OBF clear *)
  let iOK := iOK || ok in
  let tries := if ok then 1 else tries in           (* numSetupTries = 1; break; *)
  Ret (inl (tries - 1, iOK)).                       (* numSetupTries -= 1; *)

Definition setup_guard (st : Z * bool) : bool := fst st >? 0.

Definition setup_loop (cmd : Z) (final : Z -> bool) (offset : Z) : io ((Z * bool) + Z) :=
  loop (Z.to_nat numSetupTries) setup_guard (setup_attempt cmd final offset)
       (numSetupTries, false).

(** [int FANCONTROL::ReadByteFromEC(int offset, char* pdata)]: the result
    is the new globals, the return value, and the new [*pdata] (which
    the method leaves unchanged when it fails). *)
Definition ReadByteFromEC (g : globals) (offset pdata : Z) : io (globals * Z * Z) :=
  r <- setup_loop EC_CTRLPORT_READ obf_set offset ;;
  match r with
  | inr ret => Ret (g, ret, pdata)
  | inl (_, iOK) =>
      if negb iOK then Ret (g, 0, pdata)
      else
        v <- ReadPort EC_DATAPORT ;;
        let pdata := schar v in
        Ret (log_readec g offset pdata, 1, pdata)
  end.

(** [int FANCONTROL::WriteByteToEC(int offset, char NewData)]. *)
Definition WriteByteToEC (offset NewData : Z) : io Z :=
  r <- setup_loop EC_CTRLPORT_WRITE buffers_clear offset ;;
  match r with
  | inr ret => Ret ret
  | inl (_, iOK) =>
      if negb iOK then Ret 0
      else (WritePort EC_DATAPORT NewData ;; Ret 1)
  end.

(** ** The reference machine *)

Inductive outcome : Type :=
| Aborted    (* the idle wait or the command wait timed out *)
| TimedOut   (* the last wait timed out *)
| Ready.     (* the last wait succeeded *)

(** One handshake with the reference polls of 100 and 10 samples. *)
Definition attempt_ref (cmd : Z) (final : Z -> bool) (offset : Z) : io outcome :=
  ok <- poll_ref 100 buffers_clear ;;
  if negb ok then Ret Aborted else
  WritePort EC_CTRLPORT cmd ;;
  ok <- poll_ref 10 buffers_clear ;;
  if negb ok then Ret Aborted else
  WritePort EC_DATAPORT offset ;;
  ok <- poll_ref 10 final ;;
  Ret (if ok then Ready else TimedOut).

(** Repeat the attempt while it times out, at most [n] times. *)
Fixpoint retry_ref (n : nat) (att : io outcome) : io outcome :=
  match n with
  | O => Ret TimedOut
  | S n' =>
      o <- att ;;
      match o with
      | TimedOut => retry_ref n' att
      | _ => Ret o
      end
  end.

Definition read_finish (g : globals) (offset pdata : Z) (o : outcome) : io (globals * Z * Z) :=
  match o with
  | Ready => v <- ReadPort EC_DATAPORT ;; Ret (log_readec g offset (schar v), 1, schar v)
  | _ => Ret (g, 0, pdata)
  end.

Definition write_finish (NewData : Z) (o : outcome) : io Z :=
  match o with
  | Ready => WritePort EC_DATAPORT NewData ;; Ret 1
  | _ => Ret 0
  end.

Definition read_ref (g : globals) (offset pdata : Z) : io (globals * Z * Z) :=
  o <- retry_ref 5 (attempt_ref EC_CTRLPORT_READ obf_set offset) ;;
  read_finish g offset pdata o.

Definition write_ref (offset NewData : Z) : io Z :=
  o <- retry_ref 5 (attempt_ref EC_CTRLPORT_WRITE buffers_clear offset) ;;
  write_finish NewData o.

(** ** The source's control flow is the reference machine *)

(** What one iteration leaves in [(numSetupTries, iOK)], or the early
    [return 0], after an attempt with outcome [o]. *)
Definition attempt_state (tries : Z) (o : outcome) : (Z * bool) + Z :=
  match o with
  | Aborted => inr 0
  | TimedOut => inl (tries - 1, false)
  | Ready => inl (0, true)
  end.

Lemma setup_attempt_ref cmd final offset tries :
  setup_attempt cmd final offset (tries, false) ≅
    (o <- attempt_ref cmd final offset ;; Ret (attempt_state tries o)).
Proof.
  unfold setup_attempt, attempt_ref.
  rewrite wait_ec_poll, samples_iTimeoutBuf, bind_assoc.
  apply bind_cong; [reflexivity|]. intros [|]; cbn [negb orb bind WritePort]; [|reflexivity].
  constructor. rewrite wait_ec_poll, samples_iTimeout, bind_assoc.
  apply bind_cong; [reflexivity|]. intros [|]; cbn [negb orb bind WritePort]; [|reflexivity].
  constructor. rewrite wait_ec_poll, samples_iTimeout, bind_assoc.
  apply bind_cong; [reflexivity|]. intros [|]; reflexivity.
Qed.

Definition setup_measure (st : Z * bool) : nat := Z.to_nat (fst st).

Lemma setup_guard_measure st : setup_guard st = true -> (0 < setup_measure st)%nat.
Proof. destruct st as [t b]. unfold setup_guard, setup_measure. simpl. intros H. lia. Qed.

Lemma setup_attempt_decreases cmd final offset st :
  setup_guard st = true ->
  paths any_answer (setup_attempt cmd final offset st)
    (fun _ x => match x with
                | inl st' => (setup_measure st' < setup_measure st)%nat
                | inr _ => True end).
Proof.
  destruct st as [tries iOK]. unfold setup_guard, setup_measure, setup_attempt.
  cbn [fst]. intros Ht.
  apply paths_bind_result. intros ok1. destruct (negb (iOK || ok1)); [exact I|].
  apply paths_bind_result. intros _.
  apply paths_bind_result. intros ok2. destruct (negb (false || ok2)); [exact I|].
  apply paths_bind_result. intros _.
  apply paths_bind_result. intros ok3. cbn [paths fst]. destruct ok3; lia.
Qed.

(** How the loop ends, for each outcome of the last attempt. *)
Definition loop_state (o : outcome) : (Z * bool) + Z :=
  match o with
  | Aborted => inr 0
  | TimedOut => inl (0, false)
  | Ready => inl (0, true)
  end.

Lemma setup_loop_ref cmd final offset n : forall tries,
  0 <= tries -> Z.to_nat tries = n ->
  loop (Z.to_nat tries) setup_guard (setup_attempt cmd final offset) (tries, false) ≅
    (o <- retry_ref n (attempt_ref cmd final offset) ;; Ret (loop_state o)).
Proof.
  induction n as [|n IH]; intros tries Ht Hn;
    change (Z.to_nat tries) with (setup_measure (tries, false));
    rewrite (loop_unfold _ _ _ setup_guard_measure (setup_attempt_decreases cmd final offset));
    unfold setup_guard; cbn [fst]; destruct (Z.gtb_spec tries 0) as [Hp|Hp].
  - lia.
  - replace tries with 0 by lia. reflexivity.
  - rewrite setup_attempt_ref. cbn [retry_ref]. rewrite !bind_assoc.
    apply bind_cong; [reflexivity|]. intros [| |]; cbn [bind attempt_state].
    + reflexivity.
    + apply IH; lia.
    + reflexivity.
  - lia.
Qed.

(** The loop of [ReadByteFromEC] unfolds to the retries of the reference read. *)
Lemma ReadByteFromEC_eq g offset pdata :
  ReadByteFromEC g offset pdata ≅ read_ref g offset pdata.
Proof.
  unfold ReadByteFromEC, read_ref, setup_loop.
  rewrite (setup_loop_ref _ _ _ 5) by (unfold numSetupTries; lia).
  rewrite bind_assoc. apply bind_cong; [reflexivity|]. intros [| |]; reflexivity.
Qed.

(** C3: [ReadByteFromEC] as written is the reference read: at most five
    attempts, retried only after a time-out of the last wait. *)
Theorem ReadByteFromEC_ref g offset pdata :
  ReadByteFromEC g offset pdata ≅ read_ref g offset pdata.
Proof. intros; apply ReadByteFromEC_eq; assumption. Qed.

(** The loop of [WriteByteToEC] unfolds to the retries of the reference write. *)
Lemma WriteByteToEC_eq offset NewData :
  WriteByteToEC offset NewData ≅ write_ref offset NewData.
Proof.
  unfold WriteByteToEC, write_ref, setup_loop.
  rewrite (setup_loop_ref _ _ _ 5) by (unfold numSetupTries; lia).
  rewrite bind_assoc. apply bind_cong; [reflexivity|]. intros [| |]; reflexivity.
Qed.

(** C4: [WriteByteToEC] as written is the reference write. *)
Theorem WriteByteToEC_ref offset NewData :
  WriteByteToEC offset NewData ≅ write_ref offset NewData.
Proof. intros; apply WriteByteToEC_eq; assumption. Qed.

(** ** Every path of an attempt *)

Definition ready (o : outcome) : bool := match o with Ready => true | _ => false end.

(** The trace of one handshake with outcome [o]: a failed idle wait, or a
    successful idle wait, the command, and a failed command wait (both
    [Aborted]); or the idle wait, the command, the command wait, the
    offset, and the last wait, which succeeded exactly when [o] is
    [Ready]. *)
Definition attempt_post (cmd : Z) (final : Z -> bool) (offset : Z)
    (tr : list event) (o : outcome) : Prop :=
  match o with
  | Aborted =>
      poll_post 100 buffers_clear tr false \/
      exists t1 t2, tr = t1 ++ EvWrite EC_CTRLPORT (uchar cmd) :: t2 /\
                    poll_post 100 buffers_clear t1 true /\ poll_post 10 buffers_clear t2 false
  | _ =>
      exists t1 t2 t3,
        tr = t1 ++ EvWrite EC_CTRLPORT (uchar cmd) :: t2 ++ EvWrite EC_DATAPORT (uchar offset) :: t3 /\
        poll_post 100 buffers_clear t1 true /\ poll_post 10 buffers_clear t2 true /\
        poll_post 10 final t3 (ready o)
  end.

Lemma attempt_ref_paths cmd final offset :
  paths any_answer (attempt_ref cmd final offset) (attempt_post cmd final offset).
Proof.
  unfold attempt_ref. apply paths_bind.
  eapply paths_mono; [|apply poll_ref_paths]. intros t1 [|] H1; cbn [negb paths].
  2:{ left. rewrite app_nil_r. exact H1. }
  cbn [bind WritePort paths]. apply paths_bind.
  eapply paths_mono; [|apply poll_ref_paths]. intros t2 [|] H2; cbn [negb paths].
  2:{ right. exists t1, t2. rewrite !app_nil_r. auto. }
  cbn [bind WritePort paths]. apply paths_bind.
  eapply paths_mono; [|apply poll_ref_paths]. intros t3 ok H3; cbn [paths].
  rewrite !app_nil_r.
  destruct ok; exists t1, t2, t3; simpl ready; auto.
Qed.

(** ** Every path of the retry machine *)

(** Some attempts that timed out, then a last attempt with outcome [o];
    fewer than [n] attempts before the last, and exactly [n] attempts in
    all when the last one timed out too. *)
Definition retry_post (n : nat) (Patt : list event -> outcome -> Prop)
    (tr : list event) (o : outcome) : Prop :=
  exists fails last_tr,
    tr = concat fails ++ last_tr /\
    Forall (fun t => Patt t TimedOut) fails /\ Patt last_tr o /\
    (length fails < n)%nat /\ (o = TimedOut -> S (length fails) = n).

Lemma retry_post_single n (Patt : list event -> outcome -> Prop) t o :
  Patt t o -> (0 < n)%nat -> (o = TimedOut -> n = 1%nat) -> retry_post n Patt t o.
Proof.
  intros Ht Hn Ho. exists [], t. repeat split; auto.
  intros E. specialize (Ho E). simpl. lia.
Qed.

Lemma retry_ref_paths Q att Patt n :
  paths Q att Patt -> paths Q (retry_ref (S n) att) (retry_post (S n) Patt).
Proof.
  intros Hatt. induction n as [|n IH]; cbn [retry_ref]; apply paths_bind;
    eapply paths_mono; try exact Hatt; intros t1 o H1.
  - destruct o; cbn [paths]; rewrite app_nil_r;
      (apply retry_post_single; [exact H1 | lia | intros E; first [discriminate | reflexivity]]).
  - destruct o; cbn [paths];
      try (rewrite app_nil_r; apply retry_post_single; [exact H1 | lia | discriminate]).
    eapply paths_mono; [|exact IH]. intros t2 o [fails [lt [-> [Hf [Hl [Hlen Ht]]]]]].
    exists (t1 :: fails), lt. split; [simpl; rewrite app_assoc; reflexivity|].
    split; [constructor; assumption|]. split; [exact Hl|]. split; [simpl; lia|].
    intros E. specialize (Ht E). simpl. lia.
Qed.

(** ** Every path of the two methods *)

Definition read_attempts (offset : Z) := attempt_post EC_CTRLPORT_READ obf_set offset.
Definition write_attempts (offset : Z) := attempt_post EC_CTRLPORT_WRITE buffers_clear offset.

(** A read runs at most five handshakes, all but the last timed out in
    the last wait; it succeeds exactly when the last one is [Ready], and
    then reads the data port once, stores the byte in [*pdata] as a
    [char], returns 1 and logs the line; otherwise it returns 0 and
    leaves [*pdata] and the globals unchanged. *)
Definition read_post (g : globals) (offset pdata : Z) (tr : list event) (r : globals * Z * Z) : Prop :=
  let '(g', ret, pdata') := r in
  exists t o,
    retry_post 5 (read_attempts offset) t o /\
    match o with
    | Ready => exists v, tr = t ++ [EvRead EC_DATAPORT v] /\
                         g' = log_readec g offset (schar v) /\ ret = 1 /\ pdata' = schar v
    | _ => tr = t /\ g' = g /\ ret = 0 /\ pdata' = pdata
    end.

(** A write runs the same handshakes; it succeeds exactly when the last
    is [Ready], and only then writes the new value to the data port, as
    its last event. *)
Definition write_post (offset NewData : Z) (tr : list event) (ret : Z) : Prop :=
  exists t o,
    retry_post 5 (write_attempts offset) t o /\
    match o with
    | Ready => tr = t ++ [EvWrite EC_DATAPORT (uchar NewData)] /\ ret = 1
    | _ => tr = t /\ ret = 0
    end.

(** Every path of [ReadByteFromEC], through the reference read. *)
Lemma read_paths g offset pdata :
  paths any_answer (ReadByteFromEC g offset pdata) (read_post g offset pdata).
Proof.
  rewrite ReadByteFromEC_eq. unfold read_ref. apply paths_bind.
  eapply paths_mono; [|apply retry_ref_paths, attempt_ref_paths]. intros t o H.
  destruct o; cbn [read_finish bind ReadPort paths]; rewrite ?app_nil_r.
  - exists t, Aborted. auto.
  - exists t, TimedOut. auto.
  - intros v _ _. exists t, Ready. split; [exact H|]. exists v. auto.
Qed.

(** C1: On every path of [ReadByteFromEC] (whatever bytes the ports
    answer), the method runs between one and five handshakes, every one
    but the last timed out in its last wait; it returns 1 exactly when
    the last handshake saw OBF, and then its last event is one read of
    the data port, [*pdata] is that byte as a [char] and the line is
    logged; otherwise it returns 0 and [*pdata] and the globals are
    unchanged. *)
Theorem ReadByteFromEC_paths g offset pdata :
  paths any_answer (ReadByteFromEC g offset pdata) (read_post g offset pdata).
Proof. intros; apply read_paths; assumption. Qed.

(** Every path of [WriteByteToEC], through the reference write. *)
Lemma write_paths offset NewData :
  paths any_answer (WriteByteToEC offset NewData) (write_post offset NewData).
Proof.
  rewrite WriteByteToEC_eq. unfold write_ref. apply paths_bind.
  eapply paths_mono; [|apply retry_ref_paths, attempt_ref_paths]. intros t o H.
  destruct o; cbn [write_finish bind WritePort paths]; rewrite ?app_nil_r.
  - exists t, Aborted. auto.
  - exists t, TimedOut. auto.
  - exists t, Ready. auto.
Qed.

(** C2: On every path of [WriteByteToEC], the method runs between one
    and five handshakes, every one but the last timed out in its last
    wait; it returns 1 exactly when the last handshake saw both buffers
    empty, and then its last event is the write of [NewData] to the data
    port; otherwise it returns 0 and writes nothing after the handshakes. *)
Theorem WriteByteToEC_paths offset NewData :
  paths any_answer (WriteByteToEC offset NewData) (write_post offset NewData).
Proof. intros; apply write_paths; assumption. Qed.

(** C27: The types of the results, on every path: [ReadByteFromEC]
    returns 0 or 1; with 1, [*pdata] holds a [char] (-128..127) and the
    verbosity is unchanged; with 0, [*pdata] and the globals are
    unchanged.  [WriteByteToEC] returns 0 or 1. *)
Theorem transport_result_types g offset pdata NewData :
  paths any_answer (ReadByteFromEC g offset pdata)
    (fun _ r => let '(g', ret, pdata') := r in
                (ret = 0 /\ pdata' = pdata /\ g' = g) \/
                (ret = 1 /\ -128 <= pdata' < 128 /\ verbosity g' = verbosity g)) /\
  paths any_answer (WriteByteToEC offset NewData) (fun _ ret => ret = 0 \/ ret = 1).
Proof.
  split; [eapply paths_mono; [|apply read_paths] | eapply paths_mono; [|apply write_paths]].
  - intros tr [[g' ret] pd] [t [o [_ H]]].
    destruct o; [destruct H as [_ [-> [-> ->]]]; left; auto ..|].
    destruct H as [v [_ [-> [-> ->]]]]. right. rewrite log_readec_verbosity.
    split; [reflexivity | split; [apply schar_range | reflexivity]].
  - intros tr ret [t [o [_ H]]]. destruct o; destruct H as [_ ->]; auto.
Qed.

(** ** Time spent polling *)

Lemma attempt_post_sleep cmd final offset t o :
  attempt_post cmd final offset t o -> sleep_total t <= 1180.
Proof.
  destruct o; simpl attempt_post.
  - intros [H | [t1 [t2 [-> [H1 H2]]]]].
    + pose proof (poll_post_sleep _ _ _ _ H). unfold iTick in *. lia.
    + pose proof (poll_post_sleep _ _ _ _ H1). pose proof (poll_post_sleep _ _ _ _ H2).
      autorewrite with ec_rw in *. simpl ev_sleep. unfold iTick in *. lia.
  - intros [t1 [t2 [t3 [-> [H1 [H2 H3]]]]]].
    pose proof (poll_post_sleep _ _ _ _ H1). pose proof (poll_post_sleep _ _ _ _ H2).
    pose proof (poll_post_sleep _ _ _ _ H3).
    autorewrite with ec_rw in *. simpl ev_sleep in *. unfold iTick in *. simpl ready in *. lia.
  - intros [t1 [t2 [t3 [-> [H1 [H2 H3]]]]]].
    pose proof (poll_post_sleep _ _ _ _ H1). pose proof (poll_post_sleep _ _ _ _ H2).
    pose proof (poll_post_sleep _ _ _ _ H3).
    autorewrite with ec_rw in *. simpl ev_sleep in *. unfold iTick in *. simpl ready in *. lia.
Qed.

Lemma concat_sleep (c : Z) (ts : list (list event)) :
  Forall (fun t => sleep_total t <= c) ts -> sleep_total (concat ts) <= c * Z.of_nat (length ts).
Proof.
  induction 1 as [|t ts Ht _ IH]; [simpl; lia|].
  simpl concat. rewrite sleep_total_app. simpl length. lia.
Qed.

Lemma retry_post_sleep n (Patt : list event -> outcome -> Prop) c tr o :
  0 <= c -> (forall t o, Patt t o -> sleep_total t <= c) ->
  retry_post n Patt tr o -> sleep_total tr <= c * Z.of_nat n.
Proof.
  intros Hc0 Hc [fails [lt [-> [Hf [Hl [Hlen _]]]]]].
  rewrite sleep_total_app.
  pose proof (concat_sleep c fails (Forall_impl _ (fun t => Hc t TimedOut) Hf)).
  pose proof (Hc _ _ Hl). nia.
Qed.

(** C9: Worst case of a read: five handshakes of 990 + 90 + 100 ms of sleep
    (idle wait and command wait succeeding on their last sample, last
    wait timing out), 5.9 s in all. *)
Theorem ReadByteFromEC_latency g offset pdata :
  paths any_answer (ReadByteFromEC g offset pdata) (fun tr _ => sleep_total tr <= 5900).
Proof.
  eapply paths_mono; [|apply read_paths].
  intros tr [[g' ret] pd'] [t [o [Hr Ho]]].
  pose proof (retry_post_sleep _ _ 1180 _ _ ltac:(lia) (attempt_post_sleep _ _ _) Hr).
  destruct o; [destruct Ho as [-> _] .. | destruct Ho as [v [-> _]]];
    autorewrite with ec_rw; change (sleep_total []) with 0; simpl ev_sleep in *; lia.
Qed.

(** C10: Worst case of a write: at most 5.9 s of sleep on every path, as for a read. *)
Theorem WriteByteToEC_latency offset NewData :
  paths any_answer (WriteByteToEC offset NewData) (fun tr _ => sleep_total tr <= 5900).
Proof.
  eapply paths_mono; [|apply write_paths].
  intros tr ret [t [o [Hr Ho]]].
  pose proof (retry_post_sleep _ _ 1180 _ _ ltac:(lia) (attempt_post_sleep _ _ _) Hr).
  destruct o; destruct Ho as [-> _]; autorewrite with ec_rw;
    change (sleep_total []) with 0; simpl ev_sleep in *; lia.
Qed.

(** ** An EC that never becomes idle *)

(** Every status sample shows a full input or output buffer. *)
Definition status_busy : Z -> Z -> Prop :=
  fun p v => p = EC_CTRLPORT -> buffers_clear (status_sample v) = false.

Lemma retry_idle_timeout cmd final offset :
  paths status_busy (retry_ref 5 (attempt_ref cmd final offset))
    (fun tr o => o = Aborted /\ exists vs, length vs = 100%nat /\ tr = poll_trace vs).
Proof.
  cbn [retry_ref]. apply paths_bind. unfold attempt_ref. apply paths_bind.
  eapply paths_mono; [|apply poll_ref_timeout; intros v _ H; apply H; reflexivity].
  intros t ok [-> [vs [Hlen ->]]]. cbn [negb paths].
  rewrite !app_nil_r. split; [reflexivity|]. exists vs. auto.
Qed.

(** C7: If the EC never shows both buffers empty, [ReadByteFromEC] returns 0
    after the first idle wait: 100 status samples and 1000 ms of sleep,
    no write to any port and no retry. *)
Theorem ReadByteFromEC_idle_timeout g offset pdata :
  paths status_busy (ReadByteFromEC g offset pdata)
    (fun tr r => r = (g, 0, pdata) /\ filter is_write tr = [] /\
                 (exists vs, length vs = 100%nat /\ tr = poll_trace vs) /\ sleep_total tr = 1000).
Proof.
  rewrite ReadByteFromEC_eq. unfold read_ref. apply paths_bind.
  eapply paths_mono; [|apply retry_idle_timeout]. intros t o [-> [vs [Hlen ->]]].
  cbn [read_finish paths]. rewrite app_nil_r, sleep_total_poll_trace, Hlen.
  repeat split; [apply poll_trace_no_write | exists vs; auto].
Qed.

(** C8: If the EC never shows both buffers empty, [WriteByteToEC] returns 0 after the first idle wait: 100 samples, 1000 ms of sleep, no write to any port, no retry. *)
Theorem WriteByteToEC_idle_timeout offset NewData :
  paths status_busy (WriteByteToEC offset NewData)
    (fun tr ret => ret = 0 /\ filter is_write tr = [] /\
                   (exists vs, length vs = 100%nat /\ tr = poll_trace vs) /\ sleep_total tr = 1000).
Proof.
  rewrite WriteByteToEC_eq. unfold write_ref. apply paths_bind.
  eapply paths_mono; [|apply retry_idle_timeout]. intros t o [-> [vs [Hlen ->]]].
  cbn [write_finish paths]. rewrite app_nil_r, sleep_total_poll_trace, Hlen.
  repeat split; [apply poll_trace_no_write | exists vs; auto].
Qed.

(** ** What is written to the ports *)

(** A byte the handshake itself writes: the command to the command port
    or the offset to the data port. *)
Definition handshake_write (cmd offset : Z) (e : event) : Prop :=
  e = EvWrite EC_CTRLPORT (uchar cmd) \/ e = EvWrite EC_DATAPORT (uchar offset).

Lemma attempt_post_writes cmd final offset t o :
  attempt_post cmd final offset t o -> Forall (handshake_write cmd offset) (filter is_write t).
Proof.
  unfold handshake_write.
  destruct o; simpl attempt_post.
  - intros [H | [t1 [t2 [-> [H1 H2]]]]]; [rewrite (poll_post_no_write _ _ _ _ H); constructor|].
    rewrite filter_app. simpl filter.
    rewrite (poll_post_no_write _ _ _ _ H1), (poll_post_no_write _ _ _ _ H2).
    simpl. constructor; [left; reflexivity | constructor].
  - intros [t1 [t2 [t3 [-> [H1 [H2 H3]]]]]]. rewrite filter_app. simpl filter.
    rewrite filter_app. simpl filter.
    rewrite (poll_post_no_write _ _ _ _ H1), (poll_post_no_write _ _ _ _ H2),
      (poll_post_no_write _ _ _ _ H3). simpl.
    constructor; [left; reflexivity | constructor; [right; reflexivity | constructor]].
  - intros [t1 [t2 [t3 [-> [H1 [H2 H3]]]]]]. rewrite filter_app. simpl filter.
    rewrite filter_app. simpl filter.
    rewrite (poll_post_no_write _ _ _ _ H1), (poll_post_no_write _ _ _ _ H2),
      (poll_post_no_write _ _ _ _ H3). simpl.
    constructor; [left; reflexivity | constructor; [right; reflexivity | constructor]].
Qed.

Lemma retry_post_writes n (Patt : list event -> outcome -> Prop) (W : event -> Prop) tr o :
  (forall t o, Patt t o -> Forall W (filter is_write t)) ->
  retry_post n Patt tr o -> Forall W (filter is_write tr).
Proof.
  intros HW [fails [lt [-> [Hf [Hl _]]]]].
  rewrite filter_app. apply Forall_app. split; [|exact (HW _ _ Hl)].
  induction Hf as [|t fails Ht _ IH]; [constructor|].
  simpl concat. rewrite filter_app. apply Forall_app. split; [exact (HW _ _ Ht) | exact IH].
Qed.

(** C11: Apart from the handshake's command and offset bytes, [WriteByteToEC]
    writes one byte: [NewData] to the data port, as its last event, and
    only when it returns 1; when it returns 0 it has written nothing
    else. *)
Theorem WriteByteToEC_writes offset NewData :
  paths any_answer (WriteByteToEC offset NewData)
    (fun tr ret =>
       (ret = 1 /\ exists t, tr = t ++ [EvWrite EC_DATAPORT (uchar NewData)] /\
                            Forall (handshake_write EC_CTRLPORT_WRITE offset) (filter is_write t)) \/
       (ret = 0 /\ Forall (handshake_write EC_CTRLPORT_WRITE offset) (filter is_write tr))).
Proof.
  eapply paths_mono; [|apply write_paths].
  intros tr ret [t [o [Hr Ho]]].
  pose proof (retry_post_writes _ _ _ _ _ (attempt_post_writes _ _ _) Hr) as HW.
  destruct o; destruct Ho as [-> ->];
    [right; auto | right; auto | left; split; [reflexivity | exists t; auto]].
Qed.

(** ** The diagnostic log *)

(** C12: [ReadByteFromEC] never changes [verbosity]; it appends exactly one
    line to [logbuf], with the offset and the byte stored in [*pdata],
    when it returns 1 and [verbosity > 0], and leaves [logbuf] unchanged
    otherwise. *)
Theorem ReadByteFromEC_log g offset pdata :
  paths any_answer (ReadByteFromEC g offset pdata)
    (fun _ '(g', ret, pdata') =>
       verbosity g' = verbosity g /\
       logbuf g' = if (ret =? 1) && (verbosity g >? 0)
                   then String.append (logbuf g) (readec_line offset pdata')
                   else logbuf g).
Proof.
  eapply paths_mono; [|apply read_paths].
  intros tr [[g' ret] pd'] [t [o [Hr Ho]]].
  destruct o; [destruct Ho as [_ [-> [-> _]]] .. | destruct Ho as [v [_ [-> [-> ->]]]]];
    simpl; auto.
  unfold log_readec. destruct (verbosity g >? 0); auto.
Qed.

(** C17: The data field of the line a read logs: [*pdata] is a [char],
    promoted to [int] for [%02x].  On every path on which
    [ReadByteFromEC] returns 1 with [verbosity > 0], the line appended to
    [logbuf] reads back with the offset and, for the byte [b] the data
    port answered last, [b] when [b < 0x80] but [0xffffff00 + b] (eight
    digits, sign-extended) from [0x80] on. *)
Theorem ReadByteFromEC_log_data g offset pdata :
  verbosity g > 0 ->
  paths any_answer (ReadByteFromEC g offset pdata)
    (fun tr '(g', ret, _) => ret = 1 ->
       exists t b line, tr = t ++ [EvRead EC_DATAPORT b] /\
         logbuf g' = String.append (logbuf g) line /\
         parse_readec_line line =
           Some (uint32 offset, if uchar b <? 128 then uchar b else 0xffffff00 + uchar b)).
Proof.
  intros Hv. eapply paths_mono; [|apply read_paths].
  intros tr [[g' ret] pd'] [t [o [_ Ho]]] Hret.
  destruct o; [destruct Ho as [_ [_ [-> _]]]; discriminate .. |].
  destruct Ho as [b [Htr [-> _]]]. exists t, b, (readec_line offset (schar b)).
  split; [exact Htr | split].
  - unfold log_readec. destruct (Z.gtb_spec (verbosity g) 0); [reflexivity | lia].
  - rewrite readec_line_parse, uint32_schar. reflexivity.
Qed.

(** A read of register [0x2F] logged at verbosity 1. *)
Lemma ReadByteFromEC_log_data_witness :
  verbosity (mk_globals 1 String.EmptyString) > 0 /\
  paths any_answer (ReadByteFromEC (mk_globals 1 String.EmptyString) 0x2F 0)
    (fun tr '(g', ret, _) => ret = 1 ->
       exists t b line, tr = t ++ [EvRead EC_DATAPORT b] /\
         logbuf g' = String.append (logbuf (mk_globals 1 String.EmptyString)) line /\
         parse_readec_line line =
           Some (uint32 0x2F, if uchar b <? 128 then uchar b else 0xffffff00 + uchar b)).
Proof. split; [reflexivity | apply ReadByteFromEC_log_data; reflexivity]. Defined.

(** ** Termination of the retry loop *)

(** C16: [while (numSetupTries > 0)] leaves by a [return 0] or with
    [numSetupTries <= 0]; five iterations of fuel are always enough. *)
Theorem setup_loop_exit cmd final offset :
  paths any_answer (setup_loop cmd final offset)
    (fun _ r => match r with inl (tries, _) => tries <= 0 | inr _ => True end).
Proof.
  eapply paths_mono;
    [|apply (loop_exit _ _ setup_measure setup_guard_measure (setup_attempt_decreases cmd final offset));
      unfold setup_measure, numSetupTries; simpl; lia].
  intros _ [[t b]|r] H; [unfold setup_guard in H; simpl in H; lia | exact I].
Qed.

(** ** Retrying, run on a device *)

Section RetryExec.
Context {D : Type} `{PortDevice D}.

(** An attempt that does not time out ends the retries. *)
Lemma exec_retry_stop (att : io outcome) n d d' o :
  exec d att = (d', o) -> o <> TimedOut -> exec d (retry_ref (S n) att) = (d', o).
Proof. intros E Ho. cbn [retry_ref]. rewrite exec_bind, E. destruct o; [reflexivity | congruence | reflexivity]. Qed.

(** A handshake whose last wait times out is retried. *)
Lemma exec_retry_timedout (att : io outcome) n d d' :
  exec d att = (d', TimedOut) -> exec d (retry_ref (S n) att) = exec d' (retry_ref n att).
Proof. intros E. cbn [retry_ref]. rewrite exec_bind, E. reflexivity. Qed.

(** An attempt that never ends [Ready] from the states of an invariant
    it keeps makes the retries end without [Ready]. *)
Lemma exec_retry_never (P : D -> Prop) (att : io outcome) n d :
  (forall d0, P d0 -> snd (exec d0 att) <> Ready /\ P (fst (exec d0 att))) ->
  P d -> snd (exec d (retry_ref n att)) <> Ready.
Proof.
  intros Hatt. revert d. induction n as [|n IH]; intros d Hd; [discriminate|].
  cbn [retry_ref]. rewrite exec_bind. destruct (Hatt d Hd) as [Hr HP].
  destruct (exec d att) as [d1 [| |]]; [discriminate | apply IH, HP | exact Hr].
Qed.
End RetryExec.
