(* ===== verification/SimEC.v ===== *)
(** * A simulated embedded controller, and the transport against it

    The specification checks the transport against a simulated EC.  This
    file builds one as a [PortDevice]: a register file (a stdpp [gmap]
    from register index to byte), the output buffer with its OBF flag,
    and the phase of the command protocol (after a READ command the next
    data byte is a register index; after a WRITE command it is an index
    and then a value).  The input buffer is consumed at once, so IBF
    never shows: the EC is cooperative.  [scripted] wraps any device
    with a list of status bytes answered first, to replay an EC that
    stalls.

    Against the cooperative EC the transport implements the abstract EC
    memory ([mem_read], [mem_write]): one theorem per method, the
    refinement of any sequence of operations, and the write-then-read
    round trip.  The concrete scenarios of the specification are run by
    [vm_compute]. *)

From stdpp Require Import gmap.
From Stdlib Require Import ZArith Lia Bool List.
From S2P Require Import Prelude.
From S2P Require Import IO.
From S2P Require Import Poll.
From S2P Require Import LogFormat.
From S2P Require Import Transport.
Import ListNotations.
Open Scope Z_scope.

(** ** The cooperative EC *)

Inductive ec_phase : Type :=
| PhIdle
| PhRdAddr            (* READ received: the next data byte is an index *)
| PhWrAddr            (* WRITE received: the next data byte is an index *)
| PhWrData (a : Z).   (* index received: the next data byte is the value *)

#[export] Instance ec_phase_eq_dec : EqDecision ec_phase.
Proof. solve_decision. Defined.

Record ec_state := mk_ec {
  ec_ram : gmap Z Z;
  ec_obf : bool;
  ec_outb : Z;
  ec_phase_of : ec_phase
}.

Definition ec_reg (s : ec_state) (a : Z) : Z := default 0 (ec_ram s !! a).

Definition ec_status (s : ec_state) : Z := if ec_obf s then EC_STAT_OBF else 0.

Definition ec_in (s : ec_state) (p : Z) : ec_state * Z :=
  if p =? EC_CTRLPORT then (s, ec_status s)
  else if p =? EC_DATAPORT then (mk_ec (ec_ram s) false (ec_outb s) (ec_phase_of s), uchar (ec_outb s))
  else (s, 0xff).

Definition ec_out (s : ec_state) (p v : Z) : ec_state :=
  if p =? EC_CTRLPORT then
    if v =? 0x80 then mk_ec (ec_ram s) (ec_obf s) (ec_outb s) PhRdAddr
    else if v =? 0x81 then mk_ec (ec_ram s) (ec_obf s) (ec_outb s) PhWrAddr
    else s
  else if p =? EC_DATAPORT then
    match ec_phase_of s with
    | PhRdAddr => mk_ec (ec_ram s) true (uchar (ec_reg s v)) PhIdle
    | PhWrAddr => mk_ec (ec_ram s) (ec_obf s) (ec_outb s) (PhWrData v)
    | PhWrData a => mk_ec (<[a := v]> (ec_ram s)) (ec_obf s) (ec_outb s) PhIdle
    | PhIdle => s
    end
  else s.

Lemma ec_in_byte s p : 0 <= snd (ec_in s p) < 256.
Proof.
  unfold ec_in, ec_status.
  destruct (p =? EC_CTRLPORT); [destruct (ec_obf s); simpl; unfold EC_STAT_OBF; lia|].
  destruct (p =? EC_DATAPORT); simpl; [apply uchar_range | lia].
Qed.

#[export] Instance ec_device : PortDevice ec_state := {|
  dev_in := ec_in;
  dev_out := ec_out;
  dev_sleep := fun s _ => s;
  dev_in_byte := ec_in_byte
|}.

(** The EC is ready for a new transaction: no unread output, no command
    in progress. *)
Definition ec_idle (s : ec_state) : Prop := ec_obf s = false /\ ec_phase_of s = PhIdle.

(** ** The transport against the cooperative EC *)

(** A read from an idle cooperative EC takes one handshake: the idle
    sample, the READ command, the command sample, the offset, the OBF
    sample and the data byte, which is the register at the offset's low
    byte; the EC is idle again afterwards. *)
Lemma read_ref_idle s g offset pdata :
  ec_idle s ->
  let v := uchar (ec_reg s (uchar offset)) in
  run s (read_ref g offset pdata) =
    (mk_ec (ec_ram s) false v PhIdle,
     [EvRead EC_CTRLPORT 0; EvWrite EC_CTRLPORT 0x80; EvRead EC_CTRLPORT 0;
      EvWrite EC_DATAPORT (uchar offset); EvRead EC_CTRLPORT 1; EvRead EC_DATAPORT v],
     (log_readec g offset (schar v), 1, schar v)).
Proof.
  destruct s as [ram obf outb ph]; intros [Ho Hp]; simpl in Ho, Hp; subst. intros v.
  transitivity
    (mk_ec ram false v PhIdle,
     [EvRead EC_CTRLPORT 0; EvWrite EC_CTRLPORT 0x80; EvRead EC_CTRLPORT 0;
      EvWrite EC_DATAPORT (uchar offset); EvRead EC_CTRLPORT 1; EvRead EC_DATAPORT (uchar v)],
     (log_readec g offset (schar (uchar v)), 1, schar (uchar v))); [reflexivity|].
  unfold v. rewrite uchar_uchar. reflexivity.
Qed.

(** A write to an idle cooperative EC takes one handshake and stores the
    value's low byte at the offset's low byte. *)
Lemma write_ref_idle s offset NewData :
  ec_idle s ->
  run s (write_ref offset NewData) =
    (mk_ec (<[uchar offset := uchar NewData]> (ec_ram s)) false (ec_outb s) PhIdle,
     [EvRead EC_CTRLPORT 0; EvWrite EC_CTRLPORT 0x81; EvRead EC_CTRLPORT 0;
      EvWrite EC_DATAPORT (uchar offset); EvRead EC_CTRLPORT 0;
      EvWrite EC_DATAPORT (uchar NewData)],
     1).
Proof. destruct s as [ram obf outb ph]; intros [Ho Hp]; simpl in Ho, Hp; subst. reflexivity. Qed.

Lemma ReadByteFromEC_idle s g offset pdata :
  ec_idle s ->
  let v := uchar (ec_reg s (uchar offset)) in
  run s (ReadByteFromEC g offset pdata) =
    (mk_ec (ec_ram s) false v PhIdle,
     [EvRead EC_CTRLPORT 0; EvWrite EC_CTRLPORT 0x80; EvRead EC_CTRLPORT 0;
      EvWrite EC_DATAPORT (uchar offset); EvRead EC_CTRLPORT 1; EvRead EC_DATAPORT v],
     (log_readec g offset (schar v), 1, schar v)).
Proof. intros H. rewrite (run_io_eq s _ _ (ReadByteFromEC_eq g offset pdata)). apply read_ref_idle, H. Qed.

Lemma WriteByteToEC_idle s offset NewData :
  ec_idle s ->
  run s (WriteByteToEC offset NewData) =
    (mk_ec (<[uchar offset := uchar NewData]> (ec_ram s)) false (ec_outb s) PhIdle,
     [EvRead EC_CTRLPORT 0; EvWrite EC_CTRLPORT 0x81; EvRead EC_CTRLPORT 0;
      EvWrite EC_DATAPORT (uchar offset); EvRead EC_CTRLPORT 0;
      EvWrite EC_DATAPORT (uchar NewData)],
     1).
Proof. intros H. rewrite (run_io_eq s _ _ (WriteByteToEC_eq offset NewData)). apply write_ref_idle, H. Qed.

(** ** The abstract EC memory and the refinement *)

(** What the transport promises its callers: the EC is a memory of 256
    byte registers, indexed by the low byte of the offset; a read
    returns the register as a [char]; a write stores the low byte of the
    value. *)
Definition mem_read (m : gmap Z Z) (offset : Z) : Z := schar (default 0 (m !! uchar offset)).
Definition mem_write (m : gmap Z Z) (offset value : Z) : gmap Z Z := <[uchar offset := uchar value]> m.

Inductive ec_op : Type :=
| OpRead (offset : Z)
| OpWrite (offset value : Z).

Inductive ec_result : Type :=
| RRead (ret pdata : Z)
| RWrite (ret : Z).

Fixpoint mem_run (m : gmap Z Z) (ops : list ec_op) : gmap Z Z * list ec_result :=
  match ops with
  | [] => (m, [])
  | OpRead o :: ops' => let '(m', rs) := mem_run m ops' in (m', RRead 1 (mem_read m o) :: rs)
  | OpWrite o v :: ops' => let '(m', rs) := mem_run (mem_write m o v) ops' in (m', RWrite 1 :: rs)
  end.

(** A caller issuing [ReadByteFromEC] (with [*pdata] initially 0) and
    [WriteByteToEC] calls one after the other on a device, the globals
    threaded. *)
Fixpoint transport_run {D} `{PortDevice D} (s : D) (g : globals) (ops : list ec_op)
    : D * globals * list ec_result :=
  match ops with
  | [] => (s, g, [])
  | OpRead o :: ops' =>
      let '(s1, _, (g1, ret, pd)) := run s (ReadByteFromEC g o 0) in
      let '(s2, g2, rs) := transport_run s1 g1 ops' in (s2, g2, RRead ret pd :: rs)
  | OpWrite o v :: ops' =>
      let '(s1, _, ret) := run s (WriteByteToEC o v) in
      let '(s2, g2, rs) := transport_run s1 g ops' in (s2, g2, RWrite ret :: rs)
  end.

(** Induction on the operations: each call on an idle EC is one handshake. *)
Lemma transport_run_mem ops : forall s g,
  ec_idle s ->
  let '(s', _, rs) := transport_run s g ops in
  let '(m', rs') := mem_run (ec_ram s) ops in
  rs = rs' /\ ec_ram s' = m' /\ ec_idle s'.
Proof.
  induction ops as [|[o | o v] ops IH]; intros s g Hs; cbn [transport_run mem_run]; [auto|..].
  - rewrite (ReadByteFromEC_idle s g o 0 Hs). cbn zeta.
    specialize (IH (mk_ec (ec_ram s) false (uchar (ec_reg s (uchar o))) PhIdle)
                   (log_readec g o (schar (uchar (ec_reg s (uchar o))))) (conj eq_refl eq_refl)).
    destruct (transport_run _ _ ops) as [[s2 g2] rs]. simpl in IH.
    destruct (mem_run (ec_ram s) ops) as [m' rs']. destruct IH as [-> [-> Hi]].
    rewrite schar_uchar. auto.
  - rewrite (WriteByteToEC_idle s o v Hs).
    specialize (IH (mk_ec (<[uchar o := uchar v]> (ec_ram s)) false (ec_outb s) PhIdle) g
                   (conj eq_refl eq_refl)).
    destruct (transport_run _ _ ops) as [[s2 g2] rs]. simpl in IH.
    unfold mem_write. destruct (mem_run _ ops) as [m' rs']. destruct IH as [-> [-> Hi]]. auto.
Qed.

(** C5: Refinement: on an idle cooperative EC, any sequence of reads and
    writes through the transport succeeds, returns what the abstract
    memory returns, leaves the register file equal to the abstract
    memory and the EC idle. *)
Theorem transport_refines_mem ops : forall s g,
  ec_idle s ->
  let '(s', _, rs) := transport_run s g ops in
  let '(m', rs') := mem_run (ec_ram s) ops in
  rs = rs' /\ ec_ram s' = m' /\ ec_idle s'.
Proof. intros; apply transport_run_mem; assumption. Qed.

(** C6: Round trip: writing a [char] and reading the same offset back
    returns it, on an idle cooperative EC. *)
Theorem write_read_roundtrip s g offset value :
  ec_idle s -> -128 <= value < 128 ->
  let '(_, _, rs) := transport_run s g [OpWrite offset value; OpRead offset] in
  rs = [RWrite 1; RRead 1 value].
Proof.
  intros Hs Hv. pose proof (transport_run_mem [OpWrite offset value; OpRead offset] s g Hs) as H.
  destruct (transport_run _ _ _) as [[s' g'] rs]. simpl in H. destruct H as [-> _].
  unfold mem_read, mem_write. rewrite lookup_insert_eq. simpl.
  rewrite schar_uchar, schar_small by exact Hv. reflexivity.
Qed.

(** ** Scripted status bytes

    [scripted D] answers reads of the command port from a list of status
    bytes first, then from the device [D]; everything else goes to [D].
    It replays an EC whose status lags behind its state. *)
Record scripted (D : Type) := mk_scripted { sc_script : list Z; sc_dev : D }.
Arguments mk_scripted {D} sc_script sc_dev.
Arguments sc_script {D} _.
Arguments sc_dev {D} _.

Definition sc_in {D} `{PortDevice D} (d : scripted D) (p : Z) : scripted D * Z :=
  match sc_script d with
  | v :: rest => if p =? EC_CTRLPORT then (mk_scripted rest (sc_dev d), uchar v)
                 else let '(d', x) := dev_in (sc_dev d) p in (mk_scripted (sc_script d) d', x)
  | [] => let '(d', x) := dev_in (sc_dev d) p in (mk_scripted [] d', x)
  end.

Lemma sc_in_byte {D} `{PortDevice D} d p : 0 <= snd (sc_in d p) < 256.
Proof.
  unfold sc_in. destruct (sc_script d) as [|v rest].
  - pose proof (dev_in_byte (sc_dev d) p). destruct (dev_in (sc_dev d) p). exact H0.
  - destruct (p =? EC_CTRLPORT); [apply uchar_range|].
    pose proof (dev_in_byte (sc_dev d) p). destruct (dev_in (sc_dev d) p). exact H0.
Qed.

#[export] Instance scripted_device {D} `{PortDevice D} : PortDevice (scripted D) := {|
  dev_in := sc_in;
  dev_out := fun d p v => mk_scripted (sc_script d) (dev_out (sc_dev d) p v);
  dev_sleep := fun d ms => mk_scripted (sc_script d) (dev_sleep (sc_dev d) ms);
  dev_in_byte := sc_in_byte
|}.

(** An idle EC whose register [a] holds [v]. *)
Definition ec_with (a v : Z) : ec_state := mk_ec (<[a := v]> ∅) false 0 PhIdle.

(** Status bytes of [k] handshakes whose idle and command waits succeed
    at once and whose last wait sees [busy] for its ten samples. *)
Definition stall_last (busy : Z) (k : nat) : list Z :=
  concat (repeat ([0; 0] ++ repeat busy 10) k).

(** ** The scenarios of the specification *)

(** Reading register [0x2F] of an EC that is idle, accepts the command
    at once and sets OBF at once, with [0x30] in the register, returns 1
    and [0x30] after one handshake. *)
Theorem scenario_read_2F g pdata :
  let '(_, tr, (_, ret, pdata')) := run (ec_with 0x2F 0x30) (ReadByteFromEC g 0x2F pdata) in
  ret = 1 /\ pdata' = 0x30 /\
  tr = [EvRead EC_CTRLPORT 0; EvWrite EC_CTRLPORT 0x80; EvRead EC_CTRLPORT 0;
        EvWrite EC_DATAPORT 0x2F; EvRead EC_CTRLPORT 1; EvRead EC_DATAPORT 0x30].
Proof. vm_compute. repeat split. Qed.

(** Writing [0x3C] to register [0x3A] of an EC that leaves IBF set during
    the last wait of the first [k] handshakes: with [k < 5] the write
    succeeds on handshake [k + 1], writes [0x3C] to the data port exactly
    once and stores it; with [k = 5] it fails and never writes it. *)
Theorem scenario_write_stall k :
  (k <= 5)%nat ->
  let '(d, tr, ret) := run (mk_scripted (stall_last 2 k) (ec_with 0x3A 0)) (WriteByteToEC 0x3A 0x3C) in
  ret = (if (k <? 5)%nat then 1 else 0) /\
  count_if (is_write_of EC_DATAPORT 0x3C) tr = (if (k <? 5)%nat then 1 else 0)%nat /\
  count_if (is_write_of EC_CTRLPORT 0x81) tr = Nat.min (S k) 5 /\
  ec_reg (sc_dev d) 0x3A = (if (k <? 5)%nat then 0x3C else 0).
Proof.
  intros Hk. do 6 (destruct k as [|k]; [vm_compute; repeat split|]). lia.
Qed.

(** A time-out of the command wait is not retried: an EC that is idle
    but then keeps IBF set makes [ReadByteFromEC] return 0 after one
    READ command, without writing the offset. *)
Theorem scenario_read_command_timeout g pdata :
  let '(_, tr, (_, ret, pdata')) :=
    run (mk_scripted (0 :: repeat 2 10) (ec_with 0x2F 0x30)) (ReadByteFromEC g 0x2F pdata) in
  ret = 0 /\ pdata' = pdata /\ filter is_write tr = [EvWrite EC_CTRLPORT 0x80].
Proof. vm_compute. repeat split. Qed.

(** An EC that answers a read after the 100 ms of the last wait: OBF is
    set with the byte once the wait has timed out.  Nothing reads the
    data port before the retry, so the retry's idle wait sees OBF for
    its whole second and the read returns 0 after 1.1 s, with the byte
    still in the output buffer. *)
Theorem scenario_read_late_answer g pdata :
  let '(d, tr, (_, ret, pdata')) :=
    run (mk_scripted (stall_last 0 1) (ec_with 0x2F 0x30)) (ReadByteFromEC g 0x2F pdata) in
  ret = 0 /\ pdata' = pdata /\ sleep_total tr = 1100 /\
  count_if (is_write_of EC_CTRLPORT 0x80) tr = 1%nat /\
  ec_obf (sc_dev d) = true /\ ec_outb (sc_dev d) = 0x30.
Proof. vm_compute. repeat split. Qed.

(** Status bytes of five handshakes whose idle and command waits succeed
    on their last sample and whose last wait never sees OBF. *)
Definition worst_case_status : list Z :=
  concat (repeat (repeat 2 99 ++ [0] ++ repeat 2 9 ++ [0] ++ repeat 0 10) 5).

(** The bound of [ReadByteFromEC_latency] is reached: that EC makes the
    read sleep 5900 ms and return 0. *)
Theorem scenario_read_worst_case g pdata :
  let '(_, tr, (_, ret, _)) :=
    run (mk_scripted worst_case_status (ec_with 0x2F 0x30)) (ReadByteFromEC g 0x2F pdata) in
  ret = 0 /\ sleep_total tr = 5900.
Proof. vm_compute. repeat split. Qed.

Lemma write_read_roundtrip_witness :
  (ec_idle (ec_with 0x3A 0) /\ -128 <= -5 < 128) /\
  let '(_, _, rs) := transport_run (ec_with 0x3A 0) (mk_globals 1 String.EmptyString)
                                   [OpWrite 0x3A (-5); OpRead 0x3A] in
  rs = [RWrite 1; RRead 1 (-5)].
Proof.
  split; [split; [split; reflexivity | lia]|].
  apply write_read_roundtrip; [split; reflexivity | lia].
Defined.

Lemma transport_refines_mem_witness :
  ec_idle (ec_with 0x2F 0x30) /\
  let '(s', _, rs) := transport_run (ec_with 0x2F 0x30) (mk_globals 0 String.EmptyString)
                                    [OpRead 0x2F; OpWrite 0x2F 7; OpRead 0x2F] in
  let '(m', rs') := mem_run (ec_ram (ec_with 0x2F 0x30)) [OpRead 0x2F; OpWrite 0x2F 7; OpRead 0x2F] in
  rs = rs' /\ ec_ram s' = m' /\ ec_idle s'.
Proof. split; [split; reflexivity | apply transport_refines_mem; split; reflexivity]. Defined.

(** ** Offsets alias modulo 256 *)

(** C19: The offset is an [int] but reaches the EC through [WritePort]'s
    [UCHAR]: on an idle cooperative EC, two reads at offsets that differ
    by a nonzero multiple of 256 (both valid [unsigned] values) both
    return 1, store the byte of register [uchar offset] in [*pdata],
    leave the EC in the same state after the same port traffic; only the
    log line, when there is one, tells them apart. *)
Theorem read_offset_aliasing s g offset k pdata :
  ec_idle s -> k <> 0 -> 0 <= offset < 2 ^ 32 -> 0 <= offset + 256 * k < 2 ^ 32 ->
  let '(s1, tr1, (g1, ret1, pdata1)) := run s (ReadByteFromEC g offset pdata) in
  let '(s2, tr2, (g2, ret2, pdata2)) := run s (ReadByteFromEC g (offset + 256 * k) pdata) in
  ret1 = 1 /\ ret2 = 1 /\ pdata1 = mem_read (ec_ram s) offset /\ pdata2 = pdata1 /\
  s1 = s2 /\ tr1 = tr2 /\ (verbosity g > 0 -> logbuf g1 <> logbuf g2).
Proof.
  intros Hs Hk Ho1 Ho2. rewrite !(ReadByteFromEC_idle s) by exact Hs. rewrite uchar_add_256.
  unfold mem_read, ec_reg. rewrite schar_uchar. repeat split.
  intros Hv Heq. unfold log_readec in Heq. destruct (Z.gtb_spec (verbosity g) 0); [|lia].
  apply string_app_inv_l, (f_equal parse_readec_line) in Heq. rewrite !readec_line_parse in Heq.
  injection Heq as Heq. rewrite !uint32_small in Heq by lia. lia.
Qed.

(** Register [0x2F] read as [0x2F] and as [0x12F], logged at verbosity 1. *)
Lemma read_offset_aliasing_witness :
  (ec_idle (ec_with 0x2F 0x30) /\ 1 <> 0 /\ 0 <= 0x2F < 2 ^ 32 /\ 0 <= 0x2F + 256 * 1 < 2 ^ 32) /\
  let g := mk_globals 1 String.EmptyString in
  let '(s1, tr1, (g1, ret1, pdata1)) := run (ec_with 0x2F 0x30) (ReadByteFromEC g 0x2F 0) in
  let '(s2, tr2, (g2, ret2, pdata2)) := run (ec_with 0x2F 0x30) (ReadByteFromEC g (0x2F + 256 * 1) 0) in
  ret1 = 1 /\ ret2 = 1 /\ pdata1 = mem_read (ec_ram (ec_with 0x2F 0x30)) 0x2F /\ pdata2 = pdata1 /\
  s1 = s2 /\ tr1 = tr2 /\ (verbosity g > 0 -> logbuf g1 <> logbuf g2).
Proof.
  split; [repeat split; lia|].
  apply read_offset_aliasing; [split; reflexivity | lia ..].
Defined.
