(* ===== verification/TimedEC.v ===== *)
(** * An embedded controller with a clock

    The scripted EC of [SimEC] replays fixed status bytes.  This file
    builds an EC whose status follows a clock, so that the results of
    [TimedTransport] hold for every delay instead of one script.  The
    clock advances only by the transport's [::Sleep] (port accesses
    take no time).  Each byte written to either port keeps IBF set for
    [lat_ibf] ms; the index of a READ puts the register in the output
    buffer, and OBF shows from [lat_obf] ms after the index was written
    until the data port is read.  The command protocol (READ, WRITE,
    index, value) is that of the cooperative EC.

    Proved here: the poll of [Poll] on the clocked status port stops
    at the first sample taken at or after a deadline ([tec_poll_hit],
    [tec_poll_miss]; [ticks d] failed samples for a deadline [d] ms
    away), and the EC's answer to each byte of a handshake. *)

From stdpp Require Import gmap.
From Stdlib Require Import ZArith Lia Bool List.
From S2P Require Import Prelude.
From S2P Require Import IO.
From S2P Require Import Poll.
From S2P Require Import LogFormat.
From S2P Require Import Transport.
From S2P Require Import SimEC.
Import ListNotations.
Open Scope Z_scope.
Open Scope io_scope.

(** ** The clocked EC *)

(** How long the EC takes: to consume a byte written to it (IBF), and
    to put a register read into the output buffer (OBF). *)
Record timing := mk_timing { lat_ibf : Z; lat_obf : Z }.

Record tec := mk_tec {
  t_ram : gmap Z Z;
  t_clock : Z;              (* ms *)
  t_ibf_until : Z;          (* IBF shows while the clock is before this *)
  t_obf_at : option Z;      (* OBF shows from this time on *)
  t_outb : Z;
  t_phase : ec_phase;
  t_timing : timing
}.

Definition t_reg (s : tec) (a : Z) : Z := default 0 (t_ram s !! a).

Definition tick (s : tec) (ms : Z) : tec :=
  mk_tec (t_ram s) (t_clock s + ms) (t_ibf_until s) (t_obf_at s) (t_outb s) (t_phase s) (t_timing s).

Definition t_ibf_on (s : tec) : bool := t_clock s <? t_ibf_until s.

Definition t_obf_on (s : tec) : bool :=
  match t_obf_at s with Some t => t <=? t_clock s | None => false end.

Definition t_status (s : tec) : Z :=
  (if t_obf_on s then EC_STAT_OBF else 0) + (if t_ibf_on s then EC_STAT_IBF else 0).

(** Reading the data port takes the output buffer's byte and clears OBF
    (also a byte still to come). *)
Definition t_in (s : tec) (p : Z) : tec * Z :=
  if p =? EC_CTRLPORT then (s, t_status s)
  else if p =? EC_DATAPORT then
    (mk_tec (t_ram s) (t_clock s) (t_ibf_until s) None (t_outb s) (t_phase s) (t_timing s), uchar (t_outb s))
  else (s, 0xff).

Definition t_out (s : tec) (p v : Z) : tec :=
  let tm := t_timing s in
  let busy := t_clock s + lat_ibf tm in
  if p =? EC_CTRLPORT then
    mk_tec (t_ram s) (t_clock s) busy (t_obf_at s) (t_outb s)
      (if v =? 0x80 then PhRdAddr else if v =? 0x81 then PhWrAddr else PhIdle) tm
  else if p =? EC_DATAPORT then
    match t_phase s with
    | PhRdAddr =>
        mk_tec (t_ram s) (t_clock s) busy (Some (t_clock s + lat_obf tm)) (uchar (t_reg s v)) PhIdle tm
    | PhWrAddr => mk_tec (t_ram s) (t_clock s) busy (t_obf_at s) (t_outb s) (PhWrData v) tm
    | PhWrData a => mk_tec (<[a := v]> (t_ram s)) (t_clock s) busy (t_obf_at s) (t_outb s) PhIdle tm
    | PhIdle => mk_tec (t_ram s) (t_clock s) busy (t_obf_at s) (t_outb s) PhIdle tm
    end
  else s.

Lemma t_in_byte s p : 0 <= snd (t_in s p) < 256.
Proof.
  unfold t_in, t_status, EC_STAT_OBF, EC_STAT_IBF.
  destruct (p =? EC_CTRLPORT); [destruct (t_obf_on s), (t_ibf_on s); simpl; lia|].
  destruct (p =? EC_DATAPORT); simpl; [apply uchar_range | lia].
Qed.

#[export] Instance tec_device : PortDevice tec := {|
  dev_in := t_in;
  dev_out := t_out;
  dev_sleep := tick;
  dev_in_byte := t_in_byte
|}.

(** The EC can start a transaction within the idle wait: IBF clears
    before the last sample of the 1000 ms wait, and no byte waits in the
    output buffer. *)
Definition t_ready (s : tec) : Prop :=
  t_obf_at s = None /\ t_ibf_until s - t_clock s <= iTimeoutBuf - iTick.

(** Both latencies end by the last sample of a 100 ms wait. *)
Definition timely (tm : timing) : Prop :=
  0 <= lat_ibf tm <= iTimeout - iTick /\ 0 <= lat_obf tm <= iTimeout - iTick.

(** ** The clock and the status port *)

Lemma tick_0 s : tick s 0 = s.
Proof. destruct s; unfold tick; simpl. rewrite Z.add_0_r. reflexivity. Qed.

Lemma tick_tick s a b : tick (tick s a) b = tick s (a + b).
Proof. unfold tick; simpl. rewrite Z.add_assoc. reflexivity. Qed.

Lemma tick_S s j : tick (tick s iTick) (iTick * Z.of_nat j) = tick s (iTick * Z.of_nat (S j)).
Proof. rewrite tick_tick. f_equal. lia. Qed.

Lemma t_in_ctrl s : dev_in s EC_CTRLPORT = (s, t_status s).
Proof. reflexivity. Qed.

Lemma buffers_clear_status s : buffers_clear (status_sample (t_status s)) = negb (t_obf_on s) && negb (t_ibf_on s).
Proof. rewrite buffers_clear_sample. unfold t_status. destruct (t_obf_on s), (t_ibf_on s); reflexivity. Qed.

Lemma obf_set_status s : obf_set (status_sample (t_status s)) = t_obf_on s.
Proof. rewrite obf_set_sample. unfold t_status. destruct (t_obf_on s), (t_ibf_on s); reflexivity. Qed.

(** The poll stops at the first sample that satisfies the condition, the
    clock advanced one tick per failed sample. *)
Lemma tec_poll_hit cond n : forall s k,
  (k < n)%nat ->
  (forall j, (j < k)%nat -> cond (status_sample (t_status (tick s (iTick * Z.of_nat j)))) = false) ->
  cond (status_sample (t_status (tick s (iTick * Z.of_nat k)))) = true ->
  exec s (poll_ref n cond) = (tick s (iTick * Z.of_nat k), true).
Proof.
  induction n as [|n IH]; intros s k Hk Hf Ht; [lia|].
  cbn [poll_ref bind ReadPort]. rewrite exec_read, t_in_ctrl. cbn [fst snd].
  destruct k as [|k].
  - rewrite tick_0 in *. rewrite Ht. reflexivity.
  - pose proof (Hf 0%nat ltac:(lia)) as H0. rewrite tick_0 in H0. rewrite H0.
    cbn [bind Sleep]. rewrite exec_sleep. cbn [dev_sleep tec_device].
    rewrite <- tick_S. apply IH; [lia | | rewrite tick_S; exact Ht].
    intros j Hj. rewrite tick_S. apply Hf. lia.
Qed.

Lemma tec_poll_miss cond n : forall s,
  (forall j, (j < n)%nat -> cond (status_sample (t_status (tick s (iTick * Z.of_nat j)))) = false) ->
  exec s (poll_ref n cond) = (tick s (iTick * Z.of_nat n), false).
Proof.
  induction n as [|n IH]; intros s Hf; [rewrite tick_0; reflexivity|].
  cbn [poll_ref bind ReadPort]. rewrite exec_read, t_in_ctrl. cbn [fst snd].
  pose proof (Hf 0%nat ltac:(lia)) as H0. rewrite tick_0 in H0. rewrite H0.
  cbn [bind Sleep]. rewrite exec_sleep. cbn [dev_sleep tec_device].
  rewrite <- tick_S. apply IH. intros j Hj. rewrite tick_S. apply Hf. lia.
Qed.

(** Whatever the status, a poll only lets the clock run, by at most
    one tick per sample. *)
Lemma tec_poll_shape cond n : forall s,
  exists k b, (k <= n)%nat /\ exec s (poll_ref n cond) = (tick s (iTick * Z.of_nat k), b).
Proof.
  induction n as [|n IH]; intros s; [exists 0%nat, false; rewrite tick_0; auto|].
  cbn [poll_ref bind ReadPort]. rewrite exec_read, t_in_ctrl. cbn [fst snd].
  destruct (cond (status_sample (t_status s))).
  - exists 0%nat, true. rewrite tick_0. split; [lia | reflexivity].
  - cbn [bind Sleep]. rewrite exec_sleep. cbn [dev_sleep tec_device].
    destruct (IH (tick s iTick)) as [k [b [Hk E]]]. exists (S k), b. rewrite E, tick_S. split; [lia | reflexivity].
Qed.

Ltac poll_shape k b Hk :=
  match goal with |- context [exec ?d (poll_ref ?n ?c)] =>
    let E := fresh "E" in destruct (tec_poll_shape c n d) as [k [b [Hk E]]]; rewrite E end.

(** ** Waiting for a deadline *)

(** Samples taken before a deadline [d] ms away: [ceil(d / iTick)]. *)
Definition ticks (d : Z) : nat := Z.to_nat ((d + iTick - 1) / iTick).

Lemma ticks_before d j : (j < ticks d)%nat -> iTick * Z.of_nat j < d.
Proof. unfold ticks, iTick. intros Hj. Z.div_mod_to_equations. lia. Qed.

Lemma ticks_after d : d <= iTick * Z.of_nat (ticks d).
Proof. unfold ticks, iTick. Z.div_mod_to_equations. lia. Qed.

Lemma ticks_lt d n : (0 < n)%nat -> d <= iTick * (Z.of_nat n - 1) -> (ticks d < n)%nat.
Proof. unfold ticks, iTick. intros Hn Hd. Z.div_mod_to_equations. lia. Qed.

Lemma ticks_le d : 0 <= d -> iTick * Z.of_nat (ticks d) < d + iTick.
Proof. unfold ticks, iTick. intros Hd. Z.div_mod_to_equations. lia. Qed.

Ltac tick_proj := cbn [tick t_obf_at t_clock t_ibf_until t_ram t_outb t_phase t_timing].
Ltac tec_lia := tick_proj; rewrite ?Z.add_simpl_l; unfold iTick, iTimeout, iTimeoutBuf in *; simpl Z.of_nat; lia.

(** Both buffers are seen empty at the first sample after IBF clears. *)
Lemma wait_clear_hit s n :
  t_obf_at s = None -> (0 < n)%nat -> t_ibf_until s - t_clock s <= iTick * (Z.of_nat n - 1) ->
  exec s (poll_ref n buffers_clear) = (tick s (iTick * Z.of_nat (ticks (t_ibf_until s - t_clock s))), true).
Proof.
  intros Ho Hn Hd. apply tec_poll_hit; [apply ticks_lt; assumption | |];
    [intros j Hj; pose proof (ticks_before _ _ Hj) | pose proof (ticks_after (t_ibf_until s - t_clock s))];
    rewrite buffers_clear_status; unfold t_obf_on, t_ibf_on; tick_proj; rewrite Ho; simpl.
  - apply negb_false_iff, Z.ltb_lt. lia.
  - apply negb_true_iff, Z.ltb_ge. lia.
Qed.

(** IBF set at every sample: the wait times out. *)
Lemma wait_busy_miss s n :
  iTick * (Z.of_nat n - 1) < t_ibf_until s - t_clock s ->
  exec s (poll_ref n buffers_clear) = (tick s (iTick * Z.of_nat n), false).
Proof.
  intros Hd. apply tec_poll_miss. intros j Hj.
  rewrite buffers_clear_status. unfold t_ibf_on. tick_proj.
  replace (t_clock s + iTick * Z.of_nat j <? t_ibf_until s) with true by (symmetry; apply Z.ltb_lt; unfold iTick in *; lia).
  apply andb_false_r.
Qed.

(** OBF is seen at the first sample after the byte is due. *)
Lemma wait_obf_hit s n T :
  t_obf_at s = Some T -> (0 < n)%nat -> T - t_clock s <= iTick * (Z.of_nat n - 1) ->
  exec s (poll_ref n obf_set) = (tick s (iTick * Z.of_nat (ticks (T - t_clock s))), true).
Proof.
  intros Ho Hn Hd. apply tec_poll_hit; [apply ticks_lt; assumption | |];
    [intros j Hj; pose proof (ticks_before _ _ Hj) | pose proof (ticks_after (T - t_clock s))];
    rewrite obf_set_status; unfold t_obf_on; tick_proj; rewrite Ho.
  - apply Z.leb_gt. lia.
  - apply Z.leb_le. lia.
Qed.

(** A byte due after the last sample: the wait times out. *)
Lemma wait_obf_miss s n T :
  t_obf_at s = Some T -> iTick * (Z.of_nat n - 1) < T - t_clock s ->
  exec s (poll_ref n obf_set) = (tick s (iTick * Z.of_nat n), false).
Proof.
  intros Ho Hd. apply tec_poll_miss. intros j Hj.
  rewrite obf_set_status. unfold t_obf_on. tick_proj. rewrite Ho. apply Z.leb_gt. unfold iTick in *. lia.
Qed.

(** ** The EC's answer to each byte of the handshake *)

Lemma t_out_read_cmd s :
  dev_out s EC_CTRLPORT (uchar EC_CTRLPORT_READ) =
    mk_tec (t_ram s) (t_clock s) (t_clock s + lat_ibf (t_timing s)) (t_obf_at s) (t_outb s) PhRdAddr (t_timing s).
Proof. reflexivity. Qed.

Lemma t_out_write_cmd s :
  dev_out s EC_CTRLPORT (uchar EC_CTRLPORT_WRITE) =
    mk_tec (t_ram s) (t_clock s) (t_clock s + lat_ibf (t_timing s)) (t_obf_at s) (t_outb s) PhWrAddr (t_timing s).
Proof. reflexivity. Qed.

Lemma t_out_index_rd s v :
  t_phase s = PhRdAddr ->
  dev_out s EC_DATAPORT v =
    mk_tec (t_ram s) (t_clock s) (t_clock s + lat_ibf (t_timing s))
      (Some (t_clock s + lat_obf (t_timing s))) (uchar (t_reg s v)) PhIdle (t_timing s).
Proof. intros H. cbn [dev_out tec_device]. unfold t_out. rewrite H. reflexivity. Qed.

Lemma t_out_index_wr s v :
  t_phase s = PhWrAddr ->
  dev_out s EC_DATAPORT v =
    mk_tec (t_ram s) (t_clock s) (t_clock s + lat_ibf (t_timing s)) (t_obf_at s) (t_outb s) (PhWrData v) (t_timing s).
Proof. intros H. cbn [dev_out tec_device]. unfold t_out. rewrite H. reflexivity. Qed.

Lemma t_out_value s a v :
  t_phase s = PhWrData a ->
  dev_out s EC_DATAPORT v =
    mk_tec (<[a := v]> (t_ram s)) (t_clock s) (t_clock s + lat_ibf (t_timing s)) (t_obf_at s) (t_outb s) PhIdle (t_timing s).
Proof. intros H. cbn [dev_out tec_device]. unfold t_out. rewrite H. reflexivity. Qed.

Lemma t_in_data s :
  dev_in s EC_DATAPORT =
    (mk_tec (t_ram s) (t_clock s) (t_ibf_until s) None (t_outb s) (t_phase s) (t_timing s), uchar (t_outb s)).
Proof. reflexivity. Qed.

Lemma exec_WritePort {A} (s : tec) p v (k : unit -> io A) :
  exec s (bind (WritePort p v) k) = exec (dev_out s p (uchar v)) (k tt).
Proof. apply exec_write. Qed.

