(* ===== verification/TimedTransport.v ===== *)
(** * The transport against the clocked EC

    [ReadByteFromEC] and [WriteByteToEC] run on the EC of [TimedEC].
    With both latencies at most 90 ms (the last sample of a 100 ms
    wait) a read and a write complete in one handshake, in a time
    computed exactly, and leave the EC ready again; the states a
    serialized caller reaches stay ready (an invariant of the inductive
    [serial_reach]), and any sequence of calls implements the abstract
    memory.  With either latency above 90 ms every read fails, and a
    command the EC takes late fails every transaction at once.  An
    answer that comes after the last sample of the 100 ms wait but
    within it stays in the output buffer, which nothing drains: from
    then on every call fails at its idle wait. *)

From stdpp Require Import gmap.
From Stdlib Require Import ZArith Lia Bool List.
From S2P Require Import Prelude.
From S2P Require Import IO.
From S2P Require Import Poll.
From S2P Require Import LogFormat.
From S2P Require Import Transport.
From S2P Require Import SimEC.
From S2P Require Import TimedEC.
Import ListNotations.
Open Scope Z_scope.
Open Scope io_scope.

(** ** One handshake on a ready, timely EC *)

Lemma attempt_read_timely s offset :
  timely (t_timing s) -> t_ready s ->
  exists s', exec s (attempt_ref EC_CTRLPORT_READ obf_set offset) = (s', Ready) /\
    t_ram s' = t_ram s /\ t_timing s' = t_timing s /\ t_phase s' = PhIdle /\
    t_outb s' = uchar (t_reg s (uchar offset)) /\
    t_ibf_until s' - t_clock s' <= lat_ibf (t_timing s) /\
    t_clock s' = t_clock s + iTick * Z.of_nat (ticks (t_ibf_until s - t_clock s) +
                   ticks (lat_ibf (t_timing s)) + ticks (lat_obf (t_timing s))).
Proof.
  intros [[Hi0 Hi1] [Ho0 Ho1]] [Hobf Hidle].
  unfold attempt_ref. rewrite exec_bind, (wait_clear_hit s 100) by (auto; tec_lia).
  cbn [negb]. rewrite exec_WritePort, t_out_read_cmd.
  rewrite exec_bind, wait_clear_hit by (tick_proj; auto; tec_lia).
  cbn [negb]. rewrite exec_WritePort, t_out_index_rd by reflexivity.
  erewrite exec_bind, wait_obf_hit; [| reflexivity | lia | tec_lia].
  eexists; split; [reflexivity|]. tick_proj. rewrite !Z.add_simpl_l. 
  repeat split; [unfold iTick; lia | rewrite !Nat2Z.inj_add; lia].
Qed.

Lemma attempt_write_timely s offset :
  timely (t_timing s) -> t_ready s ->
  exists s', exec s (attempt_ref EC_CTRLPORT_WRITE buffers_clear offset) = (s', Ready) /\
    t_ram s' = t_ram s /\ t_timing s' = t_timing s /\ t_phase s' = PhWrData (uchar offset) /\
    t_obf_at s' = None /\ t_ibf_until s' <= t_clock s' /\
    t_clock s' = t_clock s + iTick * Z.of_nat (ticks (t_ibf_until s - t_clock s) +
                   ticks (lat_ibf (t_timing s)) + ticks (lat_ibf (t_timing s))).
Proof.
  intros [[Hi0 Hi1] [Ho0 Ho1]] [Hobf Hidle].
  unfold attempt_ref. rewrite exec_bind, (wait_clear_hit s 100) by (auto; tec_lia).
  cbn [negb]. rewrite exec_WritePort, t_out_write_cmd.
  rewrite exec_bind, wait_clear_hit by (tick_proj; auto; tec_lia).
  cbn [negb]. rewrite exec_WritePort, t_out_index_wr by reflexivity.
  rewrite exec_bind, wait_clear_hit by (tick_proj; auto; tec_lia).
  eexists; split; [reflexivity|]. tick_proj. rewrite !Z.add_simpl_l.
  pose proof (ticks_after (lat_ibf (t_timing s))).
  repeat split; [exact Hobf | unfold iTick in *; lia | rewrite !Nat2Z.inj_add; lia].
Qed.

(** ** A timely EC: every call succeeds in one handshake *)

(** A read from a ready, timely EC returns 1 and the register at the
    offset's low byte, after exactly the samples the three deadlines
    need; the EC is ready again. *)
Lemma read_timely s g offset pdata :
  timely (t_timing s) -> t_ready s ->
  exists s', exec s (ReadByteFromEC g offset pdata) =
      (s', (log_readec g offset (mem_read (t_ram s) offset), 1, mem_read (t_ram s) offset)) /\
    t_ram s' = t_ram s /\ t_timing s' = t_timing s /\ t_ready s' /\
    t_clock s' = t_clock s + iTick * Z.of_nat (ticks (t_ibf_until s - t_clock s) +
                   ticks (lat_ibf (t_timing s)) + ticks (lat_obf (t_timing s))).
Proof.
  intros Ht Hr. destruct (attempt_read_timely s offset Ht Hr) as [s1 [E [Hram [Htm [_ [Hout [Hibf Hclk]]]]]]].
  rewrite (exec_io_eq s _ _ (ReadByteFromEC_eq g offset pdata)). unfold read_ref.
  rewrite exec_bind, (exec_retry_stop _ 4 s s1 Ready E ltac:(discriminate)).
  cbn [read_finish bind ReadPort]. rewrite exec_read, t_in_data. cbn [fst snd]. rewrite exec_ret.
  rewrite Hout, uchar_uchar. unfold t_reg. rewrite schar_uchar.
  eexists; split; [reflexivity|]. tick_proj. destruct Ht as [Hi _].
  repeat split; [exact Hram | exact Htm | tec_lia | exact Hclk].
Qed.

(** A write to a ready, timely EC returns 1 and stores the value's low
    byte at the offset's low byte; the EC is ready again. *)
Lemma write_timely s offset NewData :
  timely (t_timing s) -> t_ready s ->
  exists s', exec s (WriteByteToEC offset NewData) = (s', 1) /\
    t_ram s' = mem_write (t_ram s) offset NewData /\ t_timing s' = t_timing s /\ t_ready s' /\
    t_clock s' = t_clock s + iTick * Z.of_nat (ticks (t_ibf_until s - t_clock s) +
                   ticks (lat_ibf (t_timing s)) + ticks (lat_ibf (t_timing s))).
Proof.
  intros Ht Hr. destruct (attempt_write_timely s offset Ht Hr) as [s1 [E [Hram [Htm [Hph [Hobf [Hibf Hclk]]]]]]].
  rewrite (exec_io_eq s _ _ (WriteByteToEC_eq offset NewData)). unfold write_ref.
  rewrite exec_bind, (exec_retry_stop _ 4 s s1 Ready E ltac:(discriminate)).
  cbn [write_finish]. rewrite exec_WritePort, (t_out_value _ _ _ Hph), exec_ret.
  eexists; split; [reflexivity|]. tick_proj. unfold mem_write. rewrite Hram. destruct Ht as [Hi _].
  repeat split; [exact Htm | exact Hobf | rewrite Htm; tec_lia | exact Hclk].
Qed.

(** ** Reachable states of a serialized caller *)

(** What a caller that serializes its calls can do to the EC: a read, a
    write, or letting time pass between two calls. *)
Inductive serial_step : tec -> tec -> Prop :=
| serial_read s g offset pdata : serial_step s (fst (exec s (ReadByteFromEC g offset pdata)))
| serial_write s offset NewData : serial_step s (fst (exec s (WriteByteToEC offset NewData)))
| serial_pause s ms : 0 <= ms -> serial_step s (tick s ms).

Inductive serial_reach (s0 : tec) : tec -> Prop :=
| reach_init : serial_reach s0 s0
| reach_step s s' : serial_reach s0 s -> serial_step s s' -> serial_reach s0 s'.

Lemma serial_step_ready s s' :
  timely (t_timing s) -> t_ready s -> serial_step s s' -> t_ready s' /\ t_timing s' = t_timing s.
Proof.
  intros Ht Hr Hs. destruct Hs as [s g o p | s o v | s ms Hms].
  - destruct (read_timely s g o p Ht Hr) as [s1 [-> [_ [Htm [Hr1 _]]]]]. auto.
  - destruct (write_timely s o v Ht Hr) as [s1 [-> [_ [Htm [Hr1 _]]]]]. auto.
  - destruct Hr as [Ho Hi]. unfold t_ready. tick_proj. split; [split; [exact Ho | lia] | reflexivity].
Qed.

Lemma serial_reach_inv s0 s :
  timely (t_timing s0) -> t_ready s0 -> serial_reach s0 s -> t_ready s /\ t_timing s = t_timing s0.
Proof.
  intros Ht Hr. induction 1 as [|s s' _ [Hrs Hts] Hstep]; [auto|].
  rewrite <- Hts in Ht. destruct (serial_step_ready s s' Ht Hrs Hstep) as [Hr' Ht']. split; congruence.
Qed.

(** ** A slow EC: the transport gives up *)

Lemma t_out_ctrl s v :
  t_ibf_until (dev_out s EC_CTRLPORT v) = t_clock s + lat_ibf (t_timing s) /\
  t_clock (dev_out s EC_CTRLPORT v) = t_clock s /\ t_ram (dev_out s EC_CTRLPORT v) = t_ram s /\
  t_timing (dev_out s EC_CTRLPORT v) = t_timing s.
Proof. cbn [dev_out tec_device]. unfold t_out. rewrite Z.eqb_refl. repeat split. Qed.

(** An answer due after the last sample of the 100 ms wait is never
    seen: every handshake of a read aborts or times out. *)
Lemma attempt_read_late s offset :
  iTimeout - iTick < lat_obf (t_timing s) ->
  snd (exec s (attempt_ref EC_CTRLPORT_READ obf_set offset)) <> Ready /\
  t_timing (fst (exec s (attempt_ref EC_CTRLPORT_READ obf_set offset))) = t_timing s.
Proof.
  intros Hlate. unfold attempt_ref. rewrite exec_bind. poll_shape k b Hk.
  destruct b; cbn [negb]; [|split; [discriminate | reflexivity]].
  rewrite exec_WritePort, t_out_read_cmd, exec_bind. poll_shape k1 b1 Hk1.
  destruct b1; cbn [negb]; [|split; [discriminate | reflexivity]].
  rewrite exec_WritePort, t_out_index_rd by reflexivity.
  erewrite exec_bind, wait_obf_miss; [| reflexivity | tec_lia].
  split; [discriminate | reflexivity].
Qed.

(** A command accepted after the last sample of the 100 ms wait: every
    handshake aborts in its command wait, after at most the idle wait
    and the command wait, without writing to the data port. *)
Lemma attempt_slow_cmd s cmd final offset :
  iTimeout - iTick < lat_ibf (t_timing s) ->
  exists s', exec s (attempt_ref cmd final offset) = (s', Aborted) /\ t_ram s' = t_ram s /\
    t_clock s' <= t_clock s + iTimeoutBuf + iTimeout.
Proof.
  intros Hslow. unfold attempt_ref. rewrite exec_bind. poll_shape k b Hk.
  destruct b; cbn [negb]; [|eexists; split; [reflexivity|]; tick_proj; split; [reflexivity | tec_lia]].
  rewrite exec_WritePort, exec_bind.
  match goal with |- context [exec (dev_out ?d EC_CTRLPORT ?v) _] =>
    destruct (t_out_ctrl d v) as [Hi [Hc [Hm Ht]]] end.
  rewrite wait_busy_miss by (rewrite Hi, Hc; tec_lia).
  cbn [negb]. eexists; split; [reflexivity|]. tick_proj. rewrite Hc, Hm. tick_proj. split; [reflexivity | tec_lia].
Qed.

(** ** A byte left in the output buffer *)

(** OBF shows and, since only a read of the data port clears it, keeps
    showing while time passes. *)
Definition wedged (s : tec) : Prop := exists T, t_obf_at s = Some T /\ T <= t_clock s.

Lemma tick_wedged s ms : 0 <= ms -> wedged s -> wedged (tick s ms).
Proof. intros Hms [T [HT HTc]]. exists T. tick_proj. split; [exact HT | lia]. Qed.

(** Both buffers never show empty: the idle wait times out. *)
Lemma wait_clear_wedged s n :
  wedged s -> exec s (poll_ref n buffers_clear) = (tick s (iTick * Z.of_nat n), false).
Proof.
  intros [T [HT HTc]]. apply tec_poll_miss. intros j _.
  rewrite buffers_clear_status. unfold t_obf_on. tick_proj. rewrite HT.
  replace (T <=? t_clock s + iTick * Z.of_nat j) with true by (symmetry; apply Z.leb_le; unfold iTick; lia).
  reflexivity.
Qed.

Lemma attempt_wedged s cmd final offset :
  wedged s -> exec s (attempt_ref cmd final offset) = (tick s (iTick * 100), Aborted).
Proof. intros Hw. unfold attempt_ref. rewrite exec_bind, (wait_clear_wedged s 100 Hw). reflexivity. Qed.

(** On a wedged EC both methods return 0 after the idle wait, without
    writing to a port; the EC stays wedged. *)
Lemma read_wedged s g offset pdata :
  wedged s -> exec s (ReadByteFromEC g offset pdata) = (tick s (iTick * 100), (g, 0, pdata)).
Proof.
  intros Hw. rewrite (exec_io_eq s _ _ (ReadByteFromEC_eq g offset pdata)). unfold read_ref.
  rewrite exec_bind, (exec_retry_stop _ 4 s _ Aborted (attempt_wedged s _ _ offset Hw)) by discriminate.
  reflexivity.
Qed.

Lemma write_wedged s offset NewData :
  wedged s -> exec s (WriteByteToEC offset NewData) = (tick s (iTick * 100), 0).
Proof.
  intros Hw. rewrite (exec_io_eq s _ _ (WriteByteToEC_eq offset NewData)). unfold write_ref.
  rewrite exec_bind, (exec_retry_stop _ 4 s _ Aborted (attempt_wedged s _ _ offset Hw)) by discriminate.
  reflexivity.
Qed.

Lemma serial_reach_wedged s0 s : wedged s0 -> serial_reach s0 s -> wedged s.
Proof.
  intros Hw. induction 1 as [|s s' _ IH Hstep]; [exact Hw|].
  destruct Hstep as [s g o p | s o v | s ms Hms].
  - rewrite read_wedged by exact IH. apply tick_wedged; [unfold iTick; lia | exact IH].
  - rewrite write_wedged by exact IH. apply tick_wedged; [unfold iTick; lia | exact IH].
  - apply tick_wedged; assumption.
Qed.

(** The first handshake of a read whose answer comes after the last
    sample but within the 100 ms of its wait: it times out, and the
    answer is in the output buffer when the retry starts. *)
Lemma attempt_read_missed s offset :
  0 <= lat_ibf (t_timing s) <= iTimeout - iTick ->
  iTimeout - iTick < lat_obf (t_timing s) <= iTimeout -> t_ready s ->
  exists s', exec s (attempt_ref EC_CTRLPORT_READ obf_set offset) = (s', TimedOut) /\ wedged s'.
Proof.
  intros [Hi0 Hi1] [Ho0 Ho1] [Hobf Hidle].
  unfold attempt_ref. rewrite exec_bind, (wait_clear_hit s 100) by (auto; tec_lia).
  cbn [negb]. rewrite exec_WritePort, t_out_read_cmd.
  rewrite exec_bind, wait_clear_hit by (tick_proj; auto; tec_lia).
  cbn [negb]. rewrite exec_WritePort, t_out_index_rd by reflexivity.
  erewrite exec_bind, wait_obf_miss; [| reflexivity | tec_lia].
  eexists; split; [reflexivity|]. eexists; split; [reflexivity|]. tec_lia.
Qed.

(** ** Theorems *)

(** C21: Liveness on a timely EC: when IBF clears within the idle wait,
    no byte waits in the output buffer, and the EC takes at most 90 ms
    both to take a byte and to answer, [ReadByteFromEC] returns 1 with
    the register at the offset's low byte as a [char] and logs it, after
    exactly [ceil(d / 10) + ceil(lat_ibf / 10) + ceil(lat_obf / 10)]
    ticks ([d] the time left before IBF clears); the register file is
    unchanged and the EC is ready again. *)
Theorem timed_read_ok s g offset pdata :
  timely (t_timing s) -> t_ready s ->
  let '(s', (g', ret, pdata')) := exec s (ReadByteFromEC g offset pdata) in
  ret = 1 /\ pdata' = mem_read (t_ram s) offset /\ g' = log_readec g offset pdata' /\
  t_ram s' = t_ram s /\ t_ready s' /\
  t_clock s' = t_clock s + iTick * Z.of_nat (ticks (t_ibf_until s - t_clock s) +
                 ticks (lat_ibf (t_timing s)) + ticks (lat_obf (t_timing s))).
Proof.
  intros Ht Hr. destruct (read_timely s g offset pdata Ht Hr) as [s' [-> [Hm [_ [Hr' Hc]]]]].
  cbv beta iota zeta. repeat (split; [reflexivity|]). exact (conj Hm (conj Hr' Hc)).
Qed.

(** C22: Liveness of a write on a timely EC: [WriteByteToEC] returns 1,
    stores the value's low byte at the offset's low byte, takes exactly
    [ceil(d / 10) + 2 * ceil(lat_ibf / 10)] ticks, and leaves the EC
    ready. *)
Theorem timed_write_ok s offset NewData :
  timely (t_timing s) -> t_ready s ->
  let '(s', ret) := exec s (WriteByteToEC offset NewData) in
  ret = 1 /\ t_ram s' = mem_write (t_ram s) offset NewData /\ t_ready s' /\
  t_clock s' = t_clock s + iTick * Z.of_nat (ticks (t_ibf_until s - t_clock s) +
                 ticks (lat_ibf (t_timing s)) + ticks (lat_ibf (t_timing s))).
Proof.
  intros Ht Hr. destruct (write_timely s offset NewData Ht Hr) as [s' [-> [Hm [_ [Hr' Hc]]]]].
  cbv beta iota zeta. exact (conj eq_refl (conj Hm (conj Hr' Hc))).
Qed.

(** C23: Invariant of a serialized caller: from a ready, timely EC, every
    state reached by reads, writes and pauses is ready, and in every such
    state a read returns 1 with the register and a write returns 1. *)
Theorem serial_reach_ready s0 s :
  timely (t_timing s0) -> t_ready s0 -> serial_reach s0 s ->
  t_ready s /\
  (forall g offset pdata, snd (exec s (ReadByteFromEC g offset pdata)) =
                            (log_readec g offset (mem_read (t_ram s) offset), 1, mem_read (t_ram s) offset)) /\
  (forall offset NewData, snd (exec s (WriteByteToEC offset NewData)) = 1).
Proof.
  intros Ht Hr Hreach. destruct (serial_reach_inv s0 s Ht Hr Hreach) as [Hrs Hts].
  rewrite <- Hts in Ht. split; [exact Hrs | split].
  - intros g o p. destruct (read_timely s g o p Ht Hrs) as [s' [-> _]]. reflexivity.
  - intros o v. destruct (write_timely s o v Ht Hrs) as [s' [-> _]]. reflexivity.
Qed.

(** C24: Refinement on a timely EC: any sequence of serialized reads and
    writes through the transport returns what the abstract memory
    returns and leaves the register file equal to it, whatever the
    latencies up to 90 ms. *)
Theorem timed_refines_mem ops : forall s g,
  timely (t_timing s) -> t_ready s ->
  let '(s', _, rs) := transport_run s g ops in
  let '(m', rs') := mem_run (t_ram s) ops in
  rs = rs' /\ t_ram s' = m' /\ t_ready s'.
Proof.
  induction ops as [|[o | o v] ops IH]; intros s g Ht Hr; cbn [transport_run mem_run]; [auto|..].
  - destruct (read_timely s g o 0 Ht Hr) as [s1 [E [Hm [Htm [Hr1 _]]]]]. unfold exec in E.
    destruct (run s (ReadByteFromEC g o 0)) as [[s1' tr] [[g1 r] p]]. injection E as -> -> -> ->.
    rewrite <- Htm in Ht. specialize (IH s1 (log_readec g o (mem_read (t_ram s) o)) Ht Hr1). rewrite Hm in IH.
    destruct (transport_run s1 _ ops) as [[s2 g2] rs]. destruct (mem_run (t_ram s) ops) as [m' rs'].
    destruct IH as [-> [-> Hr2]]. auto.
  - destruct (write_timely s o v Ht Hr) as [s1 [E [Hm [Htm [Hr1 _]]]]]. unfold exec in E.
    destruct (run s (WriteByteToEC o v)) as [[s1' tr] r]. injection E as -> ->.
    rewrite <- Htm in Ht. specialize (IH s1 g Ht Hr1). rewrite Hm in IH.
    destruct (transport_run s1 _ ops) as [[s2 g2] rs]. destruct (mem_run _ ops) as [m' rs'].
    destruct IH as [-> [-> Hr2]]. auto.
Qed.

(** C25: An EC that answers a read more than 90 ms after the index makes
    every [ReadByteFromEC] fail, from any state: it returns 0 and leaves
    [*pdata] and the globals unchanged. *)
Theorem timed_read_late s g offset pdata :
  iTimeout - iTick < lat_obf (t_timing s) ->
  let '(_, (g', ret, pdata')) := exec s (ReadByteFromEC g offset pdata) in
  ret = 0 /\ pdata' = pdata /\ g' = g.
Proof.
  intros Hlate. rewrite (exec_io_eq s _ _ (ReadByteFromEC_eq g offset pdata)). unfold read_ref.
  rewrite exec_bind.
  pose proof (exec_retry_never (fun d => iTimeout - iTick < lat_obf (t_timing d))
                (attempt_ref EC_CTRLPORT_READ obf_set offset) 5 s) as H.
  destruct (exec s (retry_ref 5 _)) as [s1 [| |]].
  1, 2: cbn [read_finish]; rewrite exec_ret; cbv beta iota zeta; repeat split.
  exfalso. apply H; [|exact Hlate|reflexivity].
  intros d Hd. destruct (attempt_read_late d offset Hd) as [Hn Ht]. rewrite Ht. auto.
Qed.

(** C26: An EC that takes more than 90 ms to take a command makes every
    read and every write fail at once: the command wait times out and
    is not retried, so the call returns 0 within the idle and command
    waits (at most 1.1 s, not the 5.9 s of five handshakes), a read
    leaves [*pdata] and the globals unchanged and a write stores
    nothing. *)
Theorem timed_slow_command s g offset pdata NewData :
  iTimeout - iTick < lat_ibf (t_timing s) ->
  (let '(s', (g', ret, pdata')) := exec s (ReadByteFromEC g offset pdata) in
   ret = 0 /\ pdata' = pdata /\ g' = g /\ t_clock s' <= t_clock s + iTimeoutBuf + iTimeout) /\
  (let '(s', ret) := exec s (WriteByteToEC offset NewData) in
   ret = 0 /\ t_ram s' = t_ram s /\ t_clock s' <= t_clock s + iTimeoutBuf + iTimeout).
Proof.
  intros Hslow. split.
  - rewrite (exec_io_eq s _ _ (ReadByteFromEC_eq g offset pdata)). unfold read_ref. rewrite exec_bind.
    destruct (attempt_slow_cmd s EC_CTRLPORT_READ obf_set offset Hslow) as [s' [E [_ Hc]]].
    rewrite (exec_retry_stop _ 4 s s' Aborted E) by discriminate. cbn [read_finish]. cbv beta iota zeta. repeat split; auto.
  - rewrite (exec_io_eq s _ _ (WriteByteToEC_eq offset NewData)). unfold write_ref. rewrite exec_bind.
    destruct (attempt_slow_cmd s EC_CTRLPORT_WRITE buffers_clear offset Hslow) as [s' [E [Hm Hc]]].
    rewrite (exec_retry_stop _ 4 s s' Aborted E) by discriminate. cbn [write_finish]. cbv beta iota zeta. repeat split; auto.
Qed.

(** C28: A read answered after the last sample but within the 100 ms of
    its wait wedges the transport: the read returns 0 with [*pdata]
    unchanged and leaves the byte in the output buffer; nothing ever
    reads the data port again, so in every state a serialized caller
    reaches afterwards OBF shows, every read returns 0 and every write
    returns 0 and stores nothing. *)
Theorem late_answer_wedges s0 g offset pdata :
  0 <= lat_ibf (t_timing s0) <= iTimeout - iTick ->
  iTimeout - iTick < lat_obf (t_timing s0) <= iTimeout -> t_ready s0 ->
  let '(s1, (_, ret, pdata1)) := exec s0 (ReadByteFromEC g offset pdata) in
  ret = 0 /\ pdata1 = pdata /\
  forall s, serial_reach s1 s ->
    wedged s /\
    (forall g' o p, snd (exec s (ReadByteFromEC g' o p)) = (g', 0, p)) /\
    (forall o v, snd (exec s (WriteByteToEC o v)) = 0 /\ t_ram (fst (exec s (WriteByteToEC o v))) = t_ram s).
Proof.
  intros Hi Ho Hr. destruct (attempt_read_missed s0 offset Hi Ho Hr) as [s' [E Hw]].
  rewrite (exec_io_eq s0 _ _ (ReadByteFromEC_eq g offset pdata)). unfold read_ref.
  rewrite exec_bind, (exec_retry_timedout _ 4 s0 s' E),
    (exec_retry_stop _ 3 s' _ Aborted (attempt_wedged s' _ _ offset Hw)) by discriminate.
  cbn [read_finish]. rewrite exec_ret. cbv beta iota zeta.
  split; [reflexivity | split; [reflexivity |]]. intros s Hs.
  assert (Hws : wedged s) by (eapply serial_reach_wedged; [|exact Hs]; apply tick_wedged; [unfold iTick; lia | exact Hw]).
  split; [exact Hws | split].
  - intros g' o p. rewrite read_wedged by exact Hws. reflexivity.
  - intros o v. rewrite write_wedged by exact Hws. split; reflexivity.
Qed.

(** ** Witnesses *)

(** A clocked EC with [0x30] in register [0x2F] and [0x55] in register
    [0x3A], idle at time 0. *)
Definition tec_two (tm : timing) : tec :=
  mk_tec (<[0x2F := 0x30]> (<[0x3A := 0x55]> ∅)) 0 0 None 0 PhIdle tm.

Ltac concrete := unfold timely, t_ready, iTimeout, iTimeoutBuf, iTick; cbn; repeat split; try reflexivity; lia.

Lemma timed_read_ok_witness :
  timely (mk_timing 40 70) /\ t_ready (tec_two (mk_timing 40 70)) /\
  let s := tec_two (mk_timing 40 70) in
  let '(s', (g', ret, pdata')) := exec s (ReadByteFromEC (mk_globals 1 String.EmptyString) 0x2F 0) in
  ret = 1 /\ pdata' = mem_read (t_ram s) 0x2F /\ g' = log_readec (mk_globals 1 String.EmptyString) 0x2F pdata' /\
  t_ram s' = t_ram s /\ t_ready s' /\
  t_clock s' = t_clock s + iTick * Z.of_nat (ticks (t_ibf_until s - t_clock s) +
                 ticks (lat_ibf (t_timing s)) + ticks (lat_obf (t_timing s))).
Proof. split; [concrete | split; [concrete | apply timed_read_ok; concrete]]. Defined.

Lemma timed_write_ok_witness :
  timely (mk_timing 90 0) /\ t_ready (tec_two (mk_timing 90 0)) /\
  let s := tec_two (mk_timing 90 0) in
  let '(s', ret) := exec s (WriteByteToEC 0x3A 0x3C) in
  ret = 1 /\ t_ram s' = mem_write (t_ram s) 0x3A 0x3C /\ t_ready s' /\
  t_clock s' = t_clock s + iTick * Z.of_nat (ticks (t_ibf_until s - t_clock s) +
                 ticks (lat_ibf (t_timing s)) + ticks (lat_ibf (t_timing s))).
Proof. split; [concrete | split; [concrete | apply timed_write_ok; concrete]]. Defined.

Lemma serial_reach_ready_witness :
  let s0 := tec_two (mk_timing 30 50) in
  let s := fst (exec s0 (WriteByteToEC 0x3A 0x3C)) in
  timely (t_timing s0) /\ t_ready s0 /\ serial_reach s0 s /\
  (t_ready s /\
   (forall g offset pdata, snd (exec s (ReadByteFromEC g offset pdata)) =
                             (log_readec g offset (mem_read (t_ram s) offset), 1, mem_read (t_ram s) offset)) /\
   (forall offset NewData, snd (exec s (WriteByteToEC offset NewData)) = 1)).
Proof.
  assert (R : serial_reach (tec_two (mk_timing 30 50)) (fst (exec (tec_two (mk_timing 30 50)) (WriteByteToEC 0x3A 0x3C))))
    by (eapply reach_step; [apply reach_init | apply serial_write]).
  assert (Ht : timely (t_timing (tec_two (mk_timing 30 50)))) by concrete.
  assert (Hr : t_ready (tec_two (mk_timing 30 50))) by concrete.
  split; [exact Ht | split; [exact Hr | split; [exact R | exact (serial_reach_ready _ _ Ht Hr R)]]].
Defined.

Lemma timed_refines_mem_witness :
  let s := tec_two (mk_timing 55 85) in
  let ops := [OpWrite 0x3A 0x3C; OpRead 0x3A; OpRead 0x2F] in
  timely (t_timing s) /\ t_ready s /\
  let '(s', _, rs) := transport_run s (mk_globals 0 String.EmptyString) ops in
  let '(m', rs') := mem_run (t_ram s) ops in
  rs = rs' /\ t_ram s' = m' /\ t_ready s'.
Proof. split; [concrete | split; [concrete | apply timed_refines_mem; concrete]]. Defined.

Lemma timed_read_late_witness :
  iTimeout - iTick < lat_obf (t_timing (tec_two (mk_timing 20 95))) /\
  let '(_, (g', ret, pdata')) := exec (tec_two (mk_timing 20 95)) (ReadByteFromEC (mk_globals 1 String.EmptyString) 0x2F 7) in
  ret = 0 /\ pdata' = 7 /\ g' = mk_globals 1 String.EmptyString.
Proof. split; [concrete | apply timed_read_late; concrete]. Defined.

Lemma timed_slow_command_witness :
  let s := tec_two (mk_timing 150 20) in
  iTimeout - iTick < lat_ibf (t_timing s) /\
  (let '(s', (g', ret, pdata')) := exec s (ReadByteFromEC (mk_globals 1 String.EmptyString) 0x2F 7) in
   ret = 0 /\ pdata' = 7 /\ g' = mk_globals 1 String.EmptyString /\ t_clock s' <= t_clock s + iTimeoutBuf + iTimeout) /\
  (let '(s', ret) := exec s (WriteByteToEC 0x2F 0x3C) in
   ret = 0 /\ t_ram s' = t_ram s /\ t_clock s' <= t_clock s + iTimeoutBuf + iTimeout).
Proof. split; [concrete | apply timed_slow_command; concrete]. Defined.

Lemma late_answer_wedges_witness :
  let s0 := tec_two (mk_timing 30 95) in
  (0 <= lat_ibf (t_timing s0) <= iTimeout - iTick /\
   iTimeout - iTick < lat_obf (t_timing s0) <= iTimeout /\ t_ready s0) /\
  let '(s1, (_, ret, pdata1)) := exec s0 (ReadByteFromEC (mk_globals 1 String.EmptyString) 0x2F 7) in
  ret = 0 /\ pdata1 = 7 /\
  forall s, serial_reach s1 s ->
    wedged s /\
    (forall g' o p, snd (exec s (ReadByteFromEC g' o p)) = (g', 0, p)) /\
    (forall o v, snd (exec s (WriteByteToEC o v)) = 0 /\ t_ram (fst (exec s (WriteByteToEC o v))) = t_ram s).
Proof. split; [concrete | apply late_answer_wedges; concrete]. Defined.
