(* ===== verification/Stalls.v ===== *)
(** * Handshakes that stall, for every delay

    Section 8 of the specification: when the last wait of a write
    succeeds only on the N-th handshake (N <= 5) the write succeeds,
    and after five stalled handshakes it fails.  The EC of [TimedEC]
    takes every byte with the same latency; [staged] wraps it with a
    plan, one timing per byte written, so that the EC can take a
    command quickly and an index late.  A stalled handshake takes its
    WRITE command within 90 ms and its index later than 90 ms (but
    within the next idle wait); its last wait then times out and the
    source retries.  [write_stalls] proves, for every such pair of
    latencies, that [WriteByteToEC] returns 1 and stores the value
    after [k < 5] stalled handshakes and returns 0 without storing
    anything after 5. *)

From stdpp Require Import gmap.
From Stdlib Require Import ZArith Lia Bool List.
From S2P Require Import Prelude.
From S2P Require Import IO.
From S2P Require Import Poll.
From S2P Require Import LogFormat.
From S2P Require Import Transport.
From S2P Require Import SimEC.
From S2P Require Import TimedEC.
Import ListNotations.
Open Scope Z_scope.
Open Scope io_scope.

(** ** The EC with a plan of latencies *)

Record staged := mk_staged { sg_plan : list timing; sg_ec : tec }.

Definition set_timing (s : tec) (tm : timing) : tec :=
  mk_tec (t_ram s) (t_clock s) (t_ibf_until s) (t_obf_at s) (t_outb s) (t_phase s) tm.

(** A byte written is taken with the next timing of the plan. *)
Definition sg_out (d : staged) (p v : Z) : staged :=
  match sg_plan d with
  | tm :: rest => mk_staged rest (t_out (set_timing (sg_ec d) tm) p v)
  | [] => mk_staged [] (t_out (sg_ec d) p v)
  end.

Definition sg_in (d : staged) (p : Z) : staged * Z :=
  let '(s, v) := t_in (sg_ec d) p in (mk_staged (sg_plan d) s, v).

Lemma sg_in_byte d p : 0 <= snd (sg_in d p) < 256.
Proof. unfold sg_in. pose proof (t_in_byte (sg_ec d) p). destruct (t_in (sg_ec d) p). exact H. Qed.

#[export] Instance staged_device : PortDevice staged := {|
  dev_in := sg_in;
  dev_out := sg_out;
  dev_sleep := fun d ms => mk_staged (sg_plan d) (tick (sg_ec d) ms);
  dev_in_byte := sg_in_byte
|}.

(** A program without writes runs on the wrapped EC as on the EC. *)
Lemma exec_staged_no_writes {A} (m : io A) : forall pl s,
  no_writes m ->
  exec (mk_staged pl s) m = let '(s', a) := exec s m in (mk_staged pl s', a).
Proof.
  induction m as [a|p k IH|p v k IH|ms k IH]; intros pl s Hm; simpl in Hm.
  - reflexivity.
  - rewrite !exec_read. cbn [dev_in staged_device tec_device]. unfold sg_in. cbn [sg_ec sg_plan].
    destruct (t_in s p) as [s1 v]. apply IH, Hm.
  - contradiction.
  - rewrite !exec_sleep. apply IH, Hm.
Qed.

Lemma poll_ref_no_writes n cond : no_writes (poll_ref n cond).
Proof. induction n as [|n IH]; simpl; [exact I|]. intros v. destruct (cond _); simpl; auto. Qed.

Lemma exec_staged_poll n cond pl s :
  exec (mk_staged pl s) (poll_ref n cond) = let '(s', b) := exec s (poll_ref n cond) in (mk_staged pl s', b).
Proof. apply exec_staged_no_writes, poll_ref_no_writes. Qed.

Lemma staged_write {A} tm rest s p v (k : unit -> io A) :
  exec (mk_staged (tm :: rest) s) (bind (WritePort p v) k) =
    exec (mk_staged rest (dev_out (set_timing s tm) p (uchar v))) (k tt).
Proof. cbn [bind WritePort]. rewrite exec_write. reflexivity. Qed.

Ltac sg_lia := unfold set_timing; tec_lia.

(** ** Stalled and successful handshakes of a write *)

Section Stalled.
(** [f]: a byte taken by the last sample of a 100 ms wait; [sl]: an
    index taken after it, but before the last sample of the next idle
    wait. *)
Variables f sl : timing.
Hypothesis Hf : 0 <= lat_ibf f <= iTimeout - iTick.
Hypothesis Hsl : iTimeout - iTick < lat_ibf sl <= iTimeoutBuf + iTimeout - iTick.

(** The WRITE command is taken in time, the index late: the last wait
    times out, and the EC is ready for the retry. *)
Lemma attempt_stalled s offset rest :
  t_ready s ->
  exists s', exec (mk_staged (f :: sl :: rest) s) (attempt_ref EC_CTRLPORT_WRITE buffers_clear offset) =
               (mk_staged rest s', TimedOut) /\ t_ready s' /\ t_ram s' = t_ram s.
Proof.
  intros [Hobf Hidle]. destruct Hf as [Hf0 Hf1]. destruct Hsl as [Hs0 Hs1]. unfold attempt_ref.
  rewrite exec_bind, exec_staged_poll, (wait_clear_hit s 100) by (auto; tec_lia).
  cbn [negb]. rewrite staged_write, t_out_write_cmd.
  rewrite exec_bind, exec_staged_poll, wait_clear_hit by (sg_lia || (unfold set_timing; tick_proj; auto)).
  cbn [negb]. rewrite staged_write, t_out_index_wr by reflexivity.
  rewrite exec_bind, exec_staged_poll, wait_busy_miss by sg_lia.
  eexists; split; [reflexivity|]. unfold t_ready. unfold set_timing. tick_proj.
  split; [split; [exact Hobf | sg_lia] | reflexivity].
Qed.

(** Both bytes taken in time: the last wait sees both buffers empty and
    the EC waits for the value. *)
Lemma attempt_through s offset rest :
  t_ready s ->
  exists s', exec (mk_staged (f :: f :: rest) s) (attempt_ref EC_CTRLPORT_WRITE buffers_clear offset) =
               (mk_staged rest s', Ready) /\ t_phase s' = PhWrData (uchar offset) /\ t_ram s' = t_ram s.
Proof.
  intros [Hobf Hidle]. destruct Hf as [Hf0 Hf1]. unfold attempt_ref.
  rewrite exec_bind, exec_staged_poll, (wait_clear_hit s 100) by (auto; tec_lia).
  cbn [negb]. rewrite staged_write, t_out_write_cmd.
  rewrite exec_bind, exec_staged_poll, wait_clear_hit by (sg_lia || (unfold set_timing; tick_proj; auto)).
  cbn [negb]. rewrite staged_write, t_out_index_wr by reflexivity.
  rewrite exec_bind, exec_staged_poll, wait_clear_hit by (sg_lia || (unfold set_timing; tick_proj; auto)).
  eexists; split; [reflexivity|]. split; reflexivity.
Qed.

(** [k] stalled handshakes use [k] of the retries. *)
Lemma retry_stalled offset k : forall n s rest,
  t_ready s ->
  exists s', exec (mk_staged (concat (repeat [f; sl] k) ++ rest) s)
               (retry_ref (k + n) (attempt_ref EC_CTRLPORT_WRITE buffers_clear offset)) =
             exec (mk_staged rest s') (retry_ref n (attempt_ref EC_CTRLPORT_WRITE buffers_clear offset)) /\
             t_ready s' /\ t_ram s' = t_ram s.
Proof.
  induction k as [|k IH]; intros n s rest Hr; [exists s; auto|].
  cbn [repeat concat app]. change (S k + n)%nat with (S (k + n)).
  destruct (attempt_stalled s offset (concat (repeat [f; sl] k) ++ rest) Hr) as [s1 [E [Hr1 Hm1]]].
  rewrite (exec_retry_timedout _ _ _ _ E).
  destruct (IH n s1 rest Hr1) as [s2 [E2 [Hr2 Hm2]]]. exists s2. rewrite E2. split; [reflexivity | split; congruence].
Qed.
(** C29: Section 8 of the specification, for every delay: the EC takes
    every WRITE command and value within 90 ms, and the index of each
    of the first [k] handshakes later than 90 ms, after the last sample
    of the last wait, but within 1090 ms, before the last sample of the
    retry's idle wait.
    With [k < 5] [WriteByteToEC] returns 1 and stores the value's low
    byte at the offset's low byte (success on handshake [k + 1]); with
    [k = 5] it returns 0 and stores nothing. *)
Theorem write_stalls s0 k offset NewData :
  t_ready s0 -> (k <= 5)%nat ->
  let '(d, ret) := exec (mk_staged (concat (repeat [f; sl] k) ++ [f; f; f]) s0) (WriteByteToEC offset NewData) in
  ret = (if (k <? 5)%nat then 1 else 0) /\
  t_ram (sg_ec d) = (if (k <? 5)%nat then mem_write (t_ram s0) offset NewData else t_ram s0).
Proof.
  intros Hr Hk. rewrite (exec_io_eq _ _ _ (WriteByteToEC_eq offset NewData)). unfold write_ref.
  rewrite exec_bind.
  replace (retry_ref 5 _) with (retry_ref (k + (5 - k)) (attempt_ref EC_CTRLPORT_WRITE buffers_clear offset))
    by (f_equal; lia).
  destruct (retry_stalled offset k (5 - k) s0 [f; f; f] Hr) as [s1 [E [Hr1 Hm1]]]. rewrite E.
  destruct (Nat.ltb_spec k 5) as [Hlt | Hge].
  - replace (5 - k)%nat with (S (4 - k)) by lia.
    destruct (attempt_through s1 offset [f] Hr1) as [s2 [E2 [Hph Hm2]]].
    rewrite (exec_retry_stop _ _ _ _ _ E2) by discriminate. cbn [write_finish].
    rewrite staged_write, (t_out_value (set_timing s2 f) _ _ Hph). cbv beta iota zeta. unfold mem_write, set_timing.
    cbn [t_ram sg_ec]. rewrite Hm2, Hm1. split; reflexivity.
  - replace (5 - k)%nat with 0%nat by lia. cbn [retry_ref write_finish]. rewrite exec_ret.
    cbv beta iota zeta. split; [reflexivity | exact Hm1].
Qed.
End Stalled.

(** A write whose index the EC takes 500 ms late on three handshakes,
    and within 30 ms otherwise: it succeeds on the fourth. *)
Lemma write_stalls_witness :
  let f := mk_timing 30 0 in
  let sl := mk_timing 500 0 in
  let s0 := mk_tec (<[0x3A := 0x55]> ∅) 0 0 None 0 PhIdle f in
  (0 <= lat_ibf f <= iTimeout - iTick /\ iTimeout - iTick < lat_ibf sl <= iTimeoutBuf + iTimeout - iTick /\
   t_ready s0 /\ (3 <= 5)%nat) /\
  let '(d, ret) := exec (mk_staged (concat (repeat [f; sl] 3) ++ [f; f; f]) s0) (WriteByteToEC 0x3A 0x3C) in
  ret = (if (3 <? 5)%nat then 1 else 0) /\
  t_ram (sg_ec d) = (if (3 <? 5)%nat then mem_write (t_ram s0) 0x3A 0x3C else t_ram s0).
Proof.
  assert (Hf : 0 <= lat_ibf (mk_timing 30 0) <= iTimeout - iTick) by (unfold iTimeout, iTick; simpl; lia).
  assert (Hsl : iTimeout - iTick < lat_ibf (mk_timing 500 0) <= iTimeoutBuf + iTimeout - iTick)
    by (unfold iTimeout, iTimeoutBuf, iTick; simpl; lia).
  assert (Hr : t_ready (mk_tec (<[0x3A := 0x55]> ∅) 0 0 None 0 PhIdle (mk_timing 30 0)))
    by (split; [reflexivity | unfold iTimeoutBuf, iTick; simpl; lia]).
  split; [repeat split; (assumption || apply Hr || lia) |].
  exact (write_stalls _ _ Hf Hsl _ 3 0x3A 0x3C Hr ltac:(lia)).
Defined.
