(* ===== verification/TimedSafety.v ===== *)
(** * What the transport guarantees on a clocked EC of any timing

    [TimedTransport] proves that the calls succeed when the EC is
    timely.  This file proves what holds for every pair of latencies
    and from every state the EC may be in (a stale byte in its output
    buffer, a write waiting for its value, IBF set for a long time): a
    call may fail, but it never returns a wrong byte and never changes
    a register it was not asked to change.  A read leaves the register
    file as it was and, when it returns 1, returns register
    [uchar offset] as a [char]; a write that returns 1 stored the
    value's low byte there, and one that returns 0 changed nothing.

    The argument follows the handshake: the polls only read the status
    port and sleep, so they keep the register file, the command phase
    and the output byte ([exec_tec_no_writes]); an attempt that gets
    past its command wait has written the command and then the index,
    so a READ has put the register in the output buffer and a WRITE has
    left the EC waiting for the value at that index ([attempt_read_frame],
    [attempt_write_frame]); the retries keep this ([exec_retry_inv]). *)

From stdpp Require Import gmap.
From Stdlib Require Import ZArith Lia Bool List.
From S2P Require Import Prelude.
From S2P Require Import IO.
From S2P Require Import Poll.
From S2P Require Import LogFormat.
From S2P Require Import Transport.
From S2P Require Import SimEC.
From S2P Require Import TimedEC.
From S2P Require Import Stalls.
Import ListNotations.
Open Scope Z_scope.
Open Scope io_scope.

(** ** Retries keep an invariant *)

Section RetryInv.
Context {D : Type} `{PortDevice D}.
Variables (P Q : D -> Prop) (att : io outcome).

(** An attempt that keeps [P], and establishes [Q] whenever it gets
    past the command wait. *)
Hypothesis Hatt : forall d, P d -> let '(d1, o) := exec d att in P d1 /\ (o <> Aborted -> Q d1).

Lemma exec_retry_inv n : forall d,
  P d -> let '(d', o) := exec d (retry_ref n att) in P d' /\ (o = Ready -> Q d').
Proof.
  induction n as [|n IH]; intros d Hd; cbn [retry_ref].
  - rewrite exec_ret. split; [exact Hd | discriminate].
  - rewrite exec_bind. specialize (Hatt d Hd). destruct (exec d att) as [d1 o].
    destruct Hatt as [HP HQ].
    destruct o; [rewrite exec_ret; split; [exact HP | discriminate] | apply IH, HP |].
    rewrite exec_ret. split; [exact HP | intros _; apply HQ; discriminate].
Qed.
End RetryInv.

(** ** Reads and sleeps keep the frame *)

(** The parts of the EC a status poll must not touch. *)
Definition tec_frame (s s' : tec) : Prop :=
  t_ram s' = t_ram s /\ t_phase s' = t_phase s /\ t_outb s' = t_outb s.

Lemma exec_tec_no_writes {A} (m : io A) : forall s,
  no_writes m -> tec_frame s (fst (exec s m)).
Proof.
  unfold tec_frame. induction m as [a|p k IH|p v k IH|ms k IH]; intros s Hm; simpl in Hm.
  - split; [|split]; reflexivity.
  - rewrite exec_read. destruct (IH (snd (dev_in s p)) (fst (dev_in s p)) (Hm _)) as [-> [-> ->]].
    cbn [dev_in tec_device]. unfold t_in.
    destruct (p =? EC_CTRLPORT); [|destruct (p =? EC_DATAPORT)]; split; [|split| |split| |split]; reflexivity.
  - contradiction.
  - rewrite exec_sleep. destruct (IH (dev_sleep s ms) Hm) as [-> [-> ->]]. split; [|split]; reflexivity.
Qed.

Lemma exec_poll_frame n cond s : tec_frame s (fst (exec s (poll_ref n cond))).
Proof. apply exec_tec_no_writes, poll_ref_no_writes. Qed.

(** One wait of a handshake: the frame survives it, whatever it saw. *)
Ltac frame_poll s1 ok R P O :=
  rewrite exec_bind;
  match goal with
  | |- context [exec ?d (poll_ref ?n ?c)] =>
      let Hf := fresh "Hf" in
      pose proof (exec_poll_frame n c d) as Hf;
      destruct (exec d (poll_ref n c)) as [s1 ok]; cbn [fst] in Hf;
      destruct Hf as [R [P O]]
  end.

(** ** One handshake *)

(** A READ handshake leaves the registers alone; past its command wait
    it has put register [uchar offset] in the output buffer. *)
Lemma attempt_read_frame s offset :
  let '(s', o) := exec s (attempt_ref EC_CTRLPORT_READ obf_set offset) in
  t_ram s' = t_ram s /\ (o <> Aborted -> t_outb s' = uchar (t_reg s (uchar offset))).
Proof.
  unfold attempt_ref. frame_poll s1 ok1 R1 P1 O1.
  destruct ok1; cbn [negb]; [|rewrite exec_ret; split; [cbn [t_ram] in *; congruence | congruence]].
  cbn [bind WritePort]. rewrite exec_write, t_out_read_cmd. frame_poll s2 ok2 R2 P2 O2.
  destruct ok2; cbn [negb]; [|rewrite exec_ret; split; [cbn [t_ram] in *; congruence | congruence]].
  cbn [bind WritePort]. rewrite exec_write, t_out_index_rd by assumption. frame_poll s3 ok3 R3 P3 O3.
  rewrite exec_ret. cbn [t_ram t_outb] in *. split; [congruence | intros _].
  rewrite O3. unfold t_reg. rewrite R2, R1. reflexivity.
Qed.

(** A WRITE handshake leaves the registers alone; past its command wait
    the EC waits for the value of register [uchar offset]. *)
Lemma attempt_write_frame s offset :
  let '(s', o) := exec s (attempt_ref EC_CTRLPORT_WRITE buffers_clear offset) in
  t_ram s' = t_ram s /\ (o <> Aborted -> t_phase s' = PhWrData (uchar offset)).
Proof.
  unfold attempt_ref. frame_poll s1 ok1 R1 P1 O1.
  destruct ok1; cbn [negb]; [|rewrite exec_ret; split; [cbn [t_ram] in *; congruence | congruence]].
  cbn [bind WritePort]. rewrite exec_write, t_out_write_cmd. frame_poll s2 ok2 R2 P2 O2.
  destruct ok2; cbn [negb]; [|rewrite exec_ret; split; [cbn [t_ram] in *; congruence | congruence]].
  cbn [bind WritePort]. rewrite exec_write, t_out_index_wr by assumption. frame_poll s3 ok3 R3 P3 O3.
  rewrite exec_ret. cbn [t_ram t_phase] in *. split; [congruence | intros _; exact P3].
Qed.

(** ** The retries of each method *)

Lemma read_retry_frame s offset n :
  let '(s', o) := exec s (retry_ref n (attempt_ref EC_CTRLPORT_READ obf_set offset)) in
  t_ram s' = t_ram s /\ (o = Ready -> t_outb s' = uchar (t_reg s (uchar offset))).
Proof.
  apply (exec_retry_inv (fun d => t_ram d = t_ram s) (fun d => t_outb d = uchar (t_reg s (uchar offset))));
    [|reflexivity].
  intros d Hd. pose proof (attempt_read_frame d offset) as Ha.
  destruct (exec d _) as [d1 o]. destruct Ha as [R Q]. split; [congruence|].
  intros Ho. rewrite (Q Ho). unfold t_reg. rewrite Hd. reflexivity.
Qed.

Lemma write_retry_frame s offset n :
  let '(s', o) := exec s (retry_ref n (attempt_ref EC_CTRLPORT_WRITE buffers_clear offset)) in
  t_ram s' = t_ram s /\ (o = Ready -> t_phase s' = PhWrData (uchar offset)).
Proof.
  apply (exec_retry_inv (fun d => t_ram d = t_ram s) (fun d => t_phase d = PhWrData (uchar offset)));
    [|reflexivity].
  intros d Hd. pose proof (attempt_write_frame d offset) as Ha.
  destruct (exec d _) as [d1 o]. destruct Ha as [R Q]. split; [congruence | exact Q].
Qed.

(** ** Soundness of the two methods, for every timing *)

(** C30: On a clocked EC with any latencies, in any state, [ReadByteFromEC]
    never changes a register; when it returns 1, [*pdata] is register
    [uchar offset] as a [char] (what the abstract memory reads) and the
    line is logged; when it returns 0, [*pdata] and the globals are
    unchanged.  A read may fail, but it never returns a wrong byte. *)
Theorem timed_read_sound s g offset pdata :
  let '(s', (g', ret, pd)) := exec s (ReadByteFromEC g offset pdata) in
  t_ram s' = t_ram s /\
  (ret = 1 /\ pd = mem_read (t_ram s) offset /\ g' = log_readec g offset pd \/
   ret = 0 /\ pd = pdata /\ g' = g).
Proof.
  rewrite (exec_io_eq _ _ _ (ReadByteFromEC_eq g offset pdata)). unfold read_ref. rewrite exec_bind.
  pose proof (read_retry_frame s offset 5) as Hr.
  destruct (exec s (retry_ref 5 _)) as [s1 o]. destruct Hr as [R Q].
  destruct o; cbn [read_finish]; [rewrite exec_ret; auto .. |].
  cbn [bind ReadPort]. rewrite exec_read, t_in_data, exec_ret. cbn [fst snd t_ram].
  split; [exact R | left]. rewrite (Q eq_refl). unfold mem_read, t_reg. rewrite !schar_uchar. auto.
Qed.

(** C31: On a clocked EC with any latencies, in any state,
    [WriteByteToEC] either returns 1 having stored the low byte of
    [NewData] at register [uchar offset] and changed no other register,
    or returns 0 having changed no register at all. *)
Theorem timed_write_sound s offset NewData :
  let '(s', ret) := exec s (WriteByteToEC offset NewData) in
  ret = 1 /\ t_ram s' = mem_write (t_ram s) offset NewData \/
  ret = 0 /\ t_ram s' = t_ram s.
Proof.
  rewrite (exec_io_eq _ _ _ (WriteByteToEC_eq offset NewData)). unfold write_ref. rewrite exec_bind.
  pose proof (write_retry_frame s offset 5) as Hr.
  destruct (exec s (retry_ref 5 _)) as [s1 o]. destruct Hr as [R Q].
  destruct o; cbn [write_finish]; [rewrite exec_ret; auto .. |].
  cbn [bind WritePort]. rewrite exec_write, (t_out_value _ _ _ (Q eq_refl)), exec_ret.
  left. split; [reflexivity|]. cbn [t_ram]. rewrite R. reflexivity.
Qed.
