(* ===== verification/Interleave.v ===== *)
(** * Two transactions on one EC without mutual exclusion

    portio.cpp takes no lock: the specification requires callers to
    serialize [ReadByteFromEC] and [WriteByteToEC].  This file gives the
    semantics of two threads sharing one device: a schedule (a list of
    booleans, [true] for the first thread) picks which thread performs
    its next port event.  Against the cooperative EC of [SimEC] it shows
    what an unserialized caller gets: a read that returns another
    register's value, and a write that returns 1 although nothing was
    stored.  With the schedule that runs one call after the other, the
    two threads compute what [run] computes in sequence.  The log
    append of line 118 is two steps, [strlen(logbuf)] and the [sprintf]
    at that position; two callers appending along a schedule lose a
    line. *)

From stdpp Require Import gmap.
From Stdlib Require Import ZArith Lia Bool List.
From S2P Require Import Prelude.
From S2P Require Import IO.
From S2P Require Import Poll.
From S2P Require Import LogFormat.
From S2P Require Import Transport.
From S2P Require Import SimEC.
Import ListNotations.
Open Scope Z_scope.

(** ** One event of one thread *)

Section Interleaving.
Context {D : Type} `{PortDevice D}.

(** The next event of a program, if it has not returned yet. *)
Definition step {A} (d : D) (m : io A) : option (D * event * io A) :=
  match m with
  | Ret _ => None
  | InPort p k => let '(d', v) := dev_in d p in Some (d', EvRead p v, k v)
  | OutPort p v k => Some (dev_out d p v, EvWrite p v, k)
  | Delay ms k => Some (dev_sleep d ms, EvSleep ms, k)
  end.

(** Run the two threads along the schedule; a thread that has returned
    lets its turns pass.  The trace records which thread did what. *)
Fixpoint interleave {A B} (sched : list bool) (d : D) (m1 : io A) (m2 : io B)
    : D * list (bool * event) * io A * io B :=
  match sched with
  | [] => (d, [], m1, m2)
  | true :: rest =>
      match step d m1 with
      | Some (d', e, m1') =>
          let '(d'', tr, r1, r2) := interleave rest d' m1' m2 in (d'', (true, e) :: tr, r1, r2)
      | None => interleave rest d m1 m2
      end
  | false :: rest =>
      match step d m2 with
      | Some (d', e, m2') =>
          let '(d'', tr, r1, r2) := interleave rest d' m1 m2' in (d'', (false, e) :: tr, r1, r2)
      | None => interleave rest d m1 m2
      end
  end.

Definition result_of {A} (m : io A) : option A := match m with Ret a => Some a | _ => None end.

Lemma interleave_done1 {A B} n s (d : D) (a : A) (m2 : io B) :
  interleave (repeat true n ++ s) d (Ret a) m2 = interleave s d (Ret a) m2.
Proof. induction n as [|n IH]; [reflexivity | exact IH]. Qed.

Lemma interleave_done2 {A B} n s (d : D) (m1 : io A) (b : B) :
  interleave (repeat false n ++ s) d m1 (Ret b) = interleave s d m1 (Ret b).
Proof. induction n as [|n IH]; [reflexivity | exact IH]. Qed.

(** Turns given to the first thread for at least as many events as its
    run has: it runs to completion exactly as [run] says. *)
Lemma interleave_run1 {A B} (m1 : io A) : forall n s (d : D) (m2 : io B),
  (length (snd (fst (run d m1))) <= n)%nat ->
  interleave (repeat true n ++ s) d m1 m2 =
    let '(d1, tr1, a) := run d m1 in
    let '(d', tr, r1, r2) := interleave s d1 (Ret a) m2 in
    (d', map (pair true) tr1 ++ tr, r1, r2).
Proof.
  induction m1 as [a|p k IH|p v k IH|ms k IH]; intros n s d m2 Hn; simpl in Hn |- *.
  - rewrite interleave_done1. destruct (interleave s d (Ret a) m2) as [[[? ?] ?] ?]. reflexivity.
  - destruct n as [|n]; simpl in *; destruct (dev_in d p) as [d1 v] eqn:E;
      destruct (run d1 (k v)) as [[d2 tr] a] eqn:R; simpl in Hn; [lia|].
    rewrite (IH v n s d1 m2) by (rewrite R; simpl; lia). rewrite R.
    destruct (interleave s d2 (Ret a) m2) as [[[? ?] ?] ?]. reflexivity.
  - destruct n as [|n]; simpl in *;
      destruct (run (dev_out d p v) k) as [[d2 tr] a] eqn:R; simpl in Hn; [lia|].
    rewrite (IH n s _ m2) by (rewrite R; simpl; lia). rewrite R.
    destruct (interleave s d2 (Ret a) m2) as [[[? ?] ?] ?]. reflexivity.
  - destruct n as [|n]; simpl in *;
      destruct (run (dev_sleep d ms) k) as [[d2 tr] a] eqn:R; simpl in Hn; [lia|].
    rewrite (IH n s _ m2) by (rewrite R; simpl; lia). rewrite R.
    destruct (interleave s d2 (Ret a) m2) as [[[? ?] ?] ?]. reflexivity.
Qed.

Lemma interleave_run2 {A B} (m2 : io B) : forall n s (d : D) (a : A),
  (length (snd (fst (run d m2))) <= n)%nat ->
  interleave (repeat false n ++ s) d (Ret a) m2 =
    let '(d2, tr2, b) := run d m2 in
    let '(d', tr, r1, r2) := interleave s d2 (Ret a) (Ret b) in
    (d', map (pair false) tr2 ++ tr, r1, r2).
Proof.
  induction m2 as [b|p k IH|p v k IH|ms k IH]; intros n s d a Hn; simpl in Hn |- *.
  - rewrite interleave_done2. destruct (interleave s d (Ret a) (Ret b)) as [[[? ?] ?] ?]. reflexivity.
  - destruct n as [|n]; simpl in *; destruct (dev_in d p) as [d1 v] eqn:E;
      destruct (run d1 (k v)) as [[d2 tr] b] eqn:R; simpl in Hn; [lia|].
    rewrite (IH v n s d1 a) by (rewrite R; simpl; lia). rewrite R.
    destruct (interleave s d2 (Ret a) (Ret b)) as [[[? ?] ?] ?]. reflexivity.
  - destruct n as [|n]; simpl in *;
      destruct (run (dev_out d p v) k) as [[d2 tr] b] eqn:R; simpl in Hn; [lia|].
    rewrite (IH n s _ a) by (rewrite R; simpl; lia). rewrite R.
    destruct (interleave s d2 (Ret a) (Ret b)) as [[[? ?] ?] ?]. reflexivity.
  - destruct n as [|n]; simpl in *;
      destruct (run (dev_sleep d ms) k) as [[d2 tr] b] eqn:R; simpl in Hn; [lia|].
    rewrite (IH n s _ a) by (rewrite R; simpl; lia). rewrite R.
    destruct (interleave s d2 (Ret a) (Ret b)) as [[[? ?] ?] ?]. reflexivity.
Qed.

(** A schedule that runs the first call to its end before the second
    starts gives the results and the device state of running them one
    after the other. *)
Theorem interleave_serialized {A B} (m1 : io A) (m2 : io B) d n1 n2 :
  (length (snd (fst (run d m1))) <= n1)%nat ->
  (length (snd (fst (run (fst (fst (run d m1))) m2))) <= n2)%nat ->
  let '(d', _, r1, r2) := interleave (repeat true n1 ++ repeat false n2) d m1 m2 in
  let '(d1, _, a) := run d m1 in
  let '(d2, _, b) := run d1 m2 in
  d' = d2 /\ result_of r1 = Some a /\ result_of r2 = Some b.
Proof.
  intros H1 H2. rewrite interleave_run1 by exact H1.
  destruct (run d m1) as [[d1 tr1] a] eqn:R1. simpl in H2.
  rewrite <- (app_nil_r (repeat false n2)), interleave_run2 by exact H2.
  destruct (run d1 m2) as [[d2 tr2] b]. simpl. auto.
Qed.
End Interleaving.

(** ** Unserialized calls on the cooperative EC *)

(** An EC with [0x30] in register [0x2F] and [0x55] in register [0x3A]. *)
Definition ec_two : ec_state := mk_ec (<[0x2F := 0x30]> (<[0x3A := 0x55]> ∅)) false 0 PhIdle.

(** Return value and [*pdata] of a finished read. *)
Definition read_outcome (m : io (globals * Z * Z)) : option (Z * Z) :=
  option_map (fun r => (snd (fst r), snd r)) (result_of m).

(** Both threads issue their READ command and see it accepted, then the
    first writes its offset, the second writes its offset (ignored: the
    EC has already taken the first), sees OBF and reads the data port;
    the first thread finishes alone. *)
Definition sched_two_reads : list bool :=
  [true; true; true; false; false; false; true; false; false; false] ++ repeat true 300.

(** Two reads that are not serialized: the read of register [0x3A]
    returns 1 with the value of register [0x2F]. *)
Theorem concurrent_reads_mix_registers g :
  let '(_, _, r1, r2) :=
    interleave sched_two_reads ec_two (ReadByteFromEC g 0x2F 0) (ReadByteFromEC g 0x3A 0) in
  read_outcome r1 = Some (1, 0x30) /\ read_outcome r2 = Some (1, 0x30) /\
  ec_reg ec_two 0x3A = 0x55.
Proof. vm_compute. repeat split. Qed.

(** The write's WRITE command, then the read's READ command, replaces it
    in the EC; the write's offset is taken as the read's address. *)
Definition sched_write_read : list bool :=
  [true; true; true; false; false; false; true; false; false; false; false] ++ repeat true 300.

(** A write and a read that are not serialized: the write returns 1 but
    register [0x3A] keeps its old value, and the read of register [0x2F]
    returns 1 with the value of register [0x3A]. *)
Theorem concurrent_write_lost g :
  let '(d, _, r1, r2) :=
    interleave sched_write_read ec_two (WriteByteToEC 0x3A 0x3C) (ReadByteFromEC g 0x2F 0) in
  result_of r1 = Some 1 /\ ec_reg d 0x3A = 0x55 /\ read_outcome r2 = Some (1, 0x55).
Proof. vm_compute. repeat split. Qed.

(** ** Unserialized log appends *)

(** Line 118 appends with [sprintf(logbuf + strlen(logbuf), ...)]: a
    caller first finds the end of the string, then writes its line
    there.  A caller is about to take [strlen], about to write at a
    position, or done. *)
Inductive log_thread : Type :=
| LogStart (line : String.string)
| LogAt (pos : nat) (line : String.string)
| LogDone.

Definition log_step (g : globals) (t : log_thread) : globals * log_thread :=
  match t with
  | LogStart line => (g, LogAt (strlen g) line)
  | LogAt pos line => (sprintf_at g pos line, LogDone)
  | LogDone => (g, LogDone)
  end.

(** Two callers appending to the shared [logbuf] along a schedule. *)
Fixpoint log_interleave (sched : list bool) (g : globals) (t1 t2 : log_thread) : globals :=
  match sched with
  | [] => g
  | true :: rest => let '(g', t1') := log_step g t1 in log_interleave rest g' t1' t2
  | false :: rest => let '(g', t2') := log_step g t2 in log_interleave rest g' t1 t2'
  end.

(** Two logged reads that are not serialized lose a line: when both
    callers take [strlen(logbuf)] before either writes, the second
    [sprintf] overwrites the first line, and [logbuf] ends as if the
    first read had never been logged; run one after the other, the two
    appends give both lines in order. *)
Theorem concurrent_log_lost g o1 p1 o2 p2 :
  verbosity g > 0 ->
  logbuf (log_interleave [true; true; false; false] g
            (LogStart (readec_line o1 p1)) (LogStart (readec_line o2 p2))) =
    logbuf (log_readec (log_readec g o1 p1) o2 p2) /\
  logbuf (log_interleave [true; false; true; false] g
            (LogStart (readec_line o1 p1)) (LogStart (readec_line o2 p2))) =
    logbuf (log_readec g o2 p2).
Proof.
  intros Hv. unfold log_readec. replace (verbosity g >? 0) with true by (symmetry; apply Z.gtb_lt; lia).
  cbn [log_interleave log_step sprintf_at strlen logbuf verbosity].
  replace (verbosity g >? 0) with true by (symmetry; apply Z.gtb_lt; lia).
  unfold strlen, sprintf_at. cbn [logbuf]. rewrite !substring_all, substring_prefix. split; reflexivity.
Qed.
